(** * MT::Action — a shallow embedding of mt_action.h / mt_action.cpp

    The development follows the C++ source class by class.

    Modelling conventions.
    - In the action trees a [double] is the exact rational [Q] it stands
      for: the code only adds, subtracts and compares time values.  What
      is proved on the trees is about structure (statuses, cursors, calls,
      how a group combines what its children return) or about sums that a
      [double] holds exactly.  Where rounding matters, for the time at
      which a timer finishes and for what it hands back, the timer and a
      WaitAll of timers are modelled a second time with [double] as IEEE
      754 binary64, rounding, infinities and NaN included.
    - An object of a class derived from [Action] is the pair of its
      base-class subobject ([Base]: [_status] and [_OnEventFuncs]) and of
      the members the derived class adds ([Derived]).
    - [std::shared_ptr<Action>] children are owned values: the child lists
      form a tree, no action object is reachable along two paths.
    - Calls that leave the library (an observer called by [_OnEvent], the
      [std::function] of an [ActionFunction]) are recorded in a trace, in
      call order; such callbacks do not call back into the actions.
    - [_actions[_index]] with [_index] out of range is undefined behaviour
      in C++; the model stops there with [Fault]. *)

From Stdlib Require Import QArith Qpower Qminmax Lqa Lia ZArith SpecFloat.
From stdpp Require Import base option list gmap strings.

Set Warnings "-register-all".

(** ** Enumerations *)

Module ENUM_ACTION_EVENT.
Inductive t := STARTED | PAUSED | RESUMED | FINISHED | CANCELED.
End ENUM_ACTION_EVENT.

Module ENUM_ACTION_STATUS.
Inductive t := INIT | RUNNING | PAUSED | FINISHED | CANCELED.

Definition eqb (x y : t) : bool :=
  match x, y with
  | INIT, INIT | RUNNING, RUNNING | PAUSED, PAUSED
  | FINISHED, FINISHED | CANCELED, CANCELED => true
  | _, _ => false
  end.
End ENUM_ACTION_STATUS.

Module EV := ENUM_ACTION_EVENT.
Module ST := ENUM_ACTION_STATUS.

(** ** Time values *)

(** [x > y], [x < y] and [x >= y] on [double]. *)
Definition gtb (x y : Q) : bool :=
  match (x ?= y)%Q with Gt => true | _ => false end.
Definition ltb (x y : Q) : bool :=
  match (x ?= y)%Q with Lt => true | _ => false end.
Definition geb (x y : Q) : bool :=
  match (x ?= y)%Q with Lt => false | _ => true end.

(** ** Calls out of the library, and the execution monad *)

(** [Notify p f e]: the observer [f] is called with the action found at
    child path [p] (counted from the action the running method was invoked
    on; [[]] is that action itself) and the event [e].
    [Invoke f]: the callback [f] of an [ActionFunction] is called. *)
Inductive Call :=
| Notify (pAction : list nat) (onEventFunc : nat) (event : EV.t)
| Invoke (_func : nat).

Definition Trace := list Call.

Inductive Exec (A : Type) :=
| Ok (a : A) (tr : Trace)
| Fault.
Arguments Ok {A} a tr.
Arguments Fault {A}.

Definition ret {A} (a : A) : Exec A := Ok a [].

Definition bind {A B} (m : Exec A) (k : A -> Exec B) : Exec B :=
  match m with
  | Ok a t =>
      match k a with
      | Ok b t' => Ok b (t ++ t')
      | Fault => Fault
      end
  | Fault => Fault
  end.

Definition emit (t : Trace) : Exec unit := Ok tt t.

Declare Scope exec_scope.
Delimit Scope exec_scope with exec.
Notation "x <- m ;; k" := (bind m (fun x => k))
  (at level 100, m at next level, right associativity) : exec_scope.
Notation "m ;;; k" := (bind m (fun _ => k))
  (at level 100, right associativity) : exec_scope.
Open Scope exec_scope.

(** A method run on the child at position [i]: its notifications are
    about actions below that child. *)
Definition relocate (i : nat) (c : Call) : Call :=
  match c with
  | Notify p f e => Notify (i :: p) f e
  | Invoke f => Invoke f
  end.

Definition in_child {A} (i : nat) (m : Exec A) : Exec A :=
  match m with
  | Ok a t => Ok a (map (relocate i) t)
  | Fault => Fault
  end.

(** ** class Action: the base-class subobject *)

Record Base := mkBase {
  _status : ST.t;
  _OnEventFuncs : list nat
}.

Definition set_status (s : ST.t) (b : Base) : Base :=
  {| _status := s; _OnEventFuncs := _OnEventFuncs b |}.

Definition IsInit (b : Base) : bool := ST.eqb ST.INIT (_status b).
Definition IsRunning (b : Base) : bool := ST.eqb ST.RUNNING (_status b).
Definition IsPaused (b : Base) : bool := ST.eqb ST.PAUSED (_status b).
Definition IsCanceled (b : Base) : bool := ST.eqb ST.CANCELED (_status b).
Definition IsFinished (b : Base) : bool := ST.eqb ST.FINISHED (_status b).

Definition AddOnEvent (func : nat) (b : Base) : Base :=
  {| _status := _status b; _OnEventFuncs := _OnEventFuncs b ++ [func] |}.

(** [_OnEvent(this, event)]: every registered function is called, in
    registration order. *)
Definition _OnEvent (b : Base) (event : EV.t) : Exec unit :=
  emit (map (fun f => Notify [] f event) (_OnEventFuncs b)).

Definition Action_Start (b : Base) : Exec Base :=
  if ST.eqb ST.INIT (_status b) then
    let b' := set_status ST.RUNNING b in
    _OnEvent b' EV.STARTED ;;; ret b'
  else ret b.

Definition Action_Pause (b : Base) : Exec Base :=
  if ST.eqb ST.RUNNING (_status b) then
    let b' := set_status ST.PAUSED b in
    _OnEvent b' EV.PAUSED ;;; ret b'
  else ret b.

Definition Action_Resume (b : Base) : Exec Base :=
  if ST.eqb ST.PAUSED (_status b) then
    let b' := set_status ST.RUNNING b in
    _OnEvent b' EV.RESUMED ;;; ret b'
  else ret b.

Definition Action_Stop (b : Base) : Exec Base :=
  let b' := set_status ST.CANCELED b in
  _OnEvent b' EV.CANCELED ;;; ret b'.

(** [Action::UpdateStatus]; [isDone] is the value of the virtual call
    [IsDone()]. *)
Definition Action_UpdateStatus (isDone : bool) (b : Base) : Exec Base :=
  if isDone then
    let b' := set_status ST.FINISHED b in
    _OnEvent b' EV.FINISHED ;;; ret b'
  else ret b.

(** ** The derived classes *)

Inductive Derived :=
| ActionQueue (_actions : list (Base * Derived)) (_index : nat)
| ActionWaitAny (_actions : list (Base * Derived))
| ActionWaitAll (_actions : list (Base * Derived))
| ActionChecker (_var : nat) (_value : Z) (_done : bool)
| ActionWaitForTime (_waitTime _delayedTime : Q) (_done : bool)
| ActionFunction (_func : nat) (_done : bool).

Definition Action : Type := Base * Derived.

Definition status (a : Action) : ST.t := _status a.1.

(** [ActionChecker<T>] is taken at [T = int]; [_var] is a reference to a
    variable of the host program, read through the environment. *)
Definition Env := nat -> Z.

(** [IsDone()], by class. *)
Definition IsDone (d : Derived) : bool :=
  match d with
  | ActionQueue l i => length l <=? i
  | ActionWaitAny l => existsb (fun a : Action => IsFinished a.1) l
  | ActionWaitAll l => forallb (fun a : Action => IsFinished a.1) l
  | ActionChecker _ _ done => done
  | ActionWaitForTime _ _ done => done
  | ActionFunction _ done => done
  end.

(** *** Loops over the children *)

Section Children.
Variable f : Action -> Exec Action.

(** [_actions[_index]->f()] *)
Fixpoint at_index (pos : nat) (l : list Action) (i : nat) : Exec (list Action) :=
  match l with
  | [] => Fault
  | a :: rest =>
      match i with
      | O => a' <- in_child pos (f a) ;; ret (a' :: rest)
      | S i' => rest' <- at_index (S pos) rest i' ;; ret (a :: rest')
      end
  end.

(** [for (auto& action : _actions) action->f()] *)
Fixpoint for_each (pos : nat) (l : list Action) : Exec (list Action) :=
  match l with
  | [] => ret []
  | a :: rest =>
      a' <- in_child pos (f a) ;;
      rest' <- for_each (S pos) rest ;;
      ret (a' :: rest')
  end.
End Children.

(** *** Pause, Resume, Stop (virtual) *)

Fixpoint Pause_ (b : Base) (d : Derived) {struct d} : Exec Action :=
  b' <- Action_Pause b ;;
  match d with
  | ActionQueue l i =>
      l' <- at_index (fun a => Pause_ a.1 a.2) 0 l i ;; ret (b', ActionQueue l' i)
  | ActionWaitAny l =>
      l' <- for_each (fun a => Pause_ a.1 a.2) 0 l ;; ret (b', ActionWaitAny l')
  | ActionWaitAll l =>
      l' <- for_each (fun a => Pause_ a.1 a.2) 0 l ;; ret (b', ActionWaitAll l')
  | _ => ret (b', d)
  end.

Fixpoint Resume_ (b : Base) (d : Derived) {struct d} : Exec Action :=
  b' <- Action_Resume b ;;
  match d with
  | ActionQueue l i =>
      l' <- at_index (fun a => Resume_ a.1 a.2) 0 l i ;; ret (b', ActionQueue l' i)
  | ActionWaitAny l =>
      l' <- for_each (fun a => Resume_ a.1 a.2) 0 l ;; ret (b', ActionWaitAny l')
  | ActionWaitAll l =>
      l' <- for_each (fun a => Resume_ a.1 a.2) 0 l ;; ret (b', ActionWaitAll l')
  | _ => ret (b', d)
  end.

Fixpoint Stop_ (b : Base) (d : Derived) {struct d} : Exec Action :=
  b' <- Action_Stop b ;;
  match d with
  | ActionQueue l i =>
      l' <- at_index (fun a => Stop_ a.1 a.2) 0 l i ;; ret (b', ActionQueue l' i)
  | ActionWaitAny l =>
      l' <- for_each (fun a => Stop_ a.1 a.2) 0 l ;; ret (b', ActionWaitAny l')
  | ActionWaitAll l =>
      l' <- for_each (fun a => Stop_ a.1 a.2) 0 l ;; ret (b', ActionWaitAll l')
  | _ => ret (b', d)
  end.

(** [Start] is virtual but no class overrides it. *)
Definition Start (a : Action) : Exec Action :=
  b' <- Action_Start a.1 ;; ret (b', a.2).
Definition Pause (a : Action) : Exec Action := Pause_ a.1 a.2.
Definition Resume (a : Action) : Exec Action := Resume_ a.1 a.2.
Definition Stop (a : Action) : Exec Action := Stop_ a.1 a.2.

(** *** UpdateStatus (virtual) and Action::Update *)

(** [ActionWaitAny::UpdateStatus]: once the composite is finished, every
    child that is not finished is stopped. *)
Definition ActionWaitAny_UpdateStatus (b : Base) (l : list Action) : Exec Action :=
  b' <- Action_UpdateStatus (IsDone (ActionWaitAny l)) b ;;
  if IsFinished b' then
    l' <- for_each (fun a => if negb (IsFinished a.1) then Stop a else ret a) 0 l ;;
    ret (b', ActionWaitAny l')
  else ret (b', ActionWaitAny l).

Definition UpdateStatus (a : Action) : Exec Action :=
  match a.2 with
  | ActionWaitAny l => ActionWaitAny_UpdateStatus a.1 l
  | d => b' <- Action_UpdateStatus (IsDone d) a.1 ;; ret (b', d)
  end.

(** [Action::Update]: [UpdateStatus(); return intervalTime;] *)
Definition Action_Update (a : Action) (intervalTime : Q) : Exec (Action * Q) :=
  a' <- UpdateStatus a ;; ret (a', intervalTime).

(** *** Update (virtual) *)

Section Loops.
(** The [Update] of a child whose base subobject is [b] and whose own
    members are [d]. *)
Variable Update_ : Base -> Derived -> Q -> Exec (Action * Q).

(** One round of the [while] loop of [ActionQueue::Update], on the child
    under the cursor.  [action->Pause()] runs only on a running child and
    leaves it paused, so the [Update] of the next line is then skipped. *)
Definition ActionQueue_body (paused : bool) (action : Action) (intervalTime : Q)
  : Exec (Action * Q) :=
  b1 <- (if IsInit action.1 then Action_Start action.1 else ret action.1) ;;
  if IsRunning b1 && paused then
    a2 <- Pause (b1, action.2) ;; ret (a2, intervalTime)
  else if gtb intervalTime 0 && IsRunning b1 then
    Update_ b1 action.2 intervalTime
  else ret ((b1, action.2), intervalTime).

(** The [while (_index < _actions.size())] loop.  The children before the
    cursor ([skip] of them are still ahead) are not touched; [pos] is the
    position of the head of [l] in [_actions].  The result carries the new
    [_actions], the new [_index] and the new [intervalTime]. *)
Fixpoint ActionQueue_loop (paused : bool) (l : list Action) (skip pos : nat)
  (intervalTime : Q) {struct l} : Exec (list Action * nat * Q) :=
  match l with
  | [] => ret ([], pos + skip, intervalTime)
  | action :: rest =>
      match skip with
      | S skip' =>
          r <- ActionQueue_loop paused rest skip' (S pos) intervalTime ;;
          ret (action :: r.1.1, r.1.2, r.2)
      | O =>
          r <- in_child pos (ActionQueue_body paused action intervalTime) ;;
          if IsFinished r.1.1 then
            r' <- ActionQueue_loop paused rest 0 (S pos) r.2 ;;
            ret (r.1 :: r'.1.1, r'.1.2, r'.2)
          else ret (r.1 :: rest, pos, r.2)
      end
  end.

(** The [for] loop of [ActionWaitAny::Update]. *)
Fixpoint ActionWaitAny_loop (l : list Action) (pos : nat) (intervalTime maxLeftTime : Q)
  {struct l} : Exec (list Action * Q) :=
  match l with
  | [] => ret ([], maxLeftTime)
  | action :: rest =>
      r <- in_child pos (
        b1 <- (if IsInit action.1 then Action_Start action.1 else ret action.1) ;;
        if IsRunning b1 then
          u <- Update_ b1 action.2 intervalTime ;;
          ret (u.1, if gtb u.2 maxLeftTime then u.2 else maxLeftTime)
        else ret ((b1, action.2), maxLeftTime)) ;;
      r' <- ActionWaitAny_loop rest (S pos) intervalTime r.2 ;;
      ret (r.1 :: r'.1, r'.2)
  end.

(** The [for] loop of [ActionWaitAll::Update]. *)
Fixpoint ActionWaitAll_loop (l : list Action) (pos : nat) (intervalTime minLeftTime : Q)
  {struct l} : Exec (list Action * Q) :=
  match l with
  | [] => ret ([], minLeftTime)
  | action :: rest =>
      r <- in_child pos (
        b1 <- (if IsInit action.1 then Action_Start action.1 else ret action.1) ;;
        if IsRunning b1 then
          u <- Update_ b1 action.2 intervalTime ;;
          ret (u.1, if ltb u.2 minLeftTime then u.2 else minLeftTime)
        else ret ((b1, action.2), minLeftTime)) ;;
      r' <- ActionWaitAll_loop rest (S pos) intervalTime r.2 ;;
      ret (r.1 :: r'.1, r'.2)
  end.
End Loops.

Fixpoint Update_ (env : Env) (b : Base) (d : Derived) (intervalTime : Q) {struct d}
  : Exec (Action * Q) :=
  match d with
  | ActionQueue l i =>
      r <- ActionQueue_loop (Update_ env) (IsPaused b) l i 0 intervalTime ;;
      Action_Update (b, ActionQueue r.1.1 r.1.2) r.2
  | ActionWaitAny l =>
      r <- ActionWaitAny_loop (Update_ env) l 0 intervalTime 0 ;;
      Action_Update (b, ActionWaitAny r.1) r.2
  | ActionWaitAll l =>
      r <- ActionWaitAll_loop (Update_ env) l 0 intervalTime 0 ;;
      Action_Update (b, ActionWaitAll r.1) r.2
  | ActionChecker var value _ =>
      if negb (IsRunning b) then ret ((b, d), 0%Q)
      else
        let done := (env var =? value)%Z in
        Action_Update (b, ActionChecker var value done) (if done then intervalTime else 0%Q)
  | ActionWaitForTime waitTime delayedTime _ =>
      if negb (IsRunning b) then ret ((b, d), 0%Q)
      else
        let used := intervalTime in
        let reached := geb (delayedTime + used) waitTime in
        let used := if reached then (waitTime - delayedTime)%Q else used in
        let done := reached in
        let delayedTime := (delayedTime + used)%Q in
        Action_Update (b, ActionWaitForTime waitTime delayedTime done)
                      (intervalTime - used)%Q
  | ActionFunction func _ =>
      if negb (IsRunning b) then ret ((b, d), 0%Q)
      else
        emit [Invoke func] ;;;
        Action_Update (b, ActionFunction func true) intervalTime
  end.

Definition Update (env : Env) (a : Action) (intervalTime : Q) : Exec (Action * Q) :=
  Update_ env a.1 a.2 intervalTime.

(** ** Operations on an action, and sequences of them *)

Inductive Op :=
| OpStart
| OpPause
| OpResume
| OpStop
| OpUpdate (env : Env) (intervalTime : Q).

Definition run_op (op : Op) (a : Action) : Exec Action :=
  match op with
  | OpStart => Start a
  | OpPause => Pause a
  | OpResume => Resume a
  | OpStop => Stop a
  | OpUpdate env intervalTime => r <- Update env a intervalTime ;; ret r.1
  end.

Fixpoint run_ops (ops : list Op) (a : Action) : Exec Action :=
  match ops with
  | [] => ret a
  | op :: ops' => a' <- run_op op a ;; run_ops ops' a'
  end.

Definition is_composite (d : Derived) : bool :=
  match d with
  | ActionQueue _ _ | ActionWaitAny _ | ActionWaitAll _ => true
  | _ => false
  end.

Definition children (d : Derived) : list Action :=
  match d with
  | ActionQueue l _ | ActionWaitAny l | ActionWaitAll l => l
  | _ => []
  end.

(** ** Reading a trace *)

(** The observer calls made for the action the method was invoked on. *)
Definition own_events (t : Trace) : list (nat * EV.t) :=
  omap (fun c => match c with Notify [] f e => Some (f, e) | _ => None end) t.

(** What [_OnEvent(this, e)] makes of the observers of [b]; nothing for
    [None]. *)
Definition fired (b : Base) (e : option EV.t) : list (nat * EV.t) :=
  match e with
  | Some e => map (fun f => (f, e)) (_OnEventFuncs b)
  | None => []
  end.

(** Number of calls of [ActionFunction] callbacks. *)
Definition is_Invoke (c : Call) : bool :=
  match c with Invoke _ => true | Notify _ _ _ => false end.

Definition invocations (t : Trace) : nat := length (List.filter is_Invoke t).

(** ** The transition table

    [transition false] is the table of the lifecycle: each operation with
    its guard, the status it leads to and the event it fires, and for each
    guarded operation the row where the guard fails.  [transition true]
    adds the row that [Update] has on a composite, where the completion
    check runs whatever the status is. *)
Inductive transition (composite : bool) : Op -> ST.t -> ST.t -> option EV.t -> Prop :=
| tr_Start :
    transition composite OpStart ST.INIT ST.RUNNING (Some EV.STARTED)
| tr_Start_noop s :
    s <> ST.INIT -> transition composite OpStart s s None
| tr_Pause :
    transition composite OpPause ST.RUNNING ST.PAUSED (Some EV.PAUSED)
| tr_Pause_noop s :
    s <> ST.RUNNING -> transition composite OpPause s s None
| tr_Resume :
    transition composite OpResume ST.PAUSED ST.RUNNING (Some EV.RESUMED)
| tr_Resume_noop s :
    s <> ST.PAUSED -> transition composite OpResume s s None
| tr_Stop s :
    transition composite OpStop s ST.CANCELED (Some EV.CANCELED)
| tr_Update_finish env dt :
    transition composite (OpUpdate env dt) ST.RUNNING ST.FINISHED (Some EV.FINISHED)
| tr_Update_noop env dt s :
    transition composite (OpUpdate env dt) s s None
| tr_Update_composite env dt s :
    composite = true ->
    transition composite (OpUpdate env dt) s ST.FINISHED (Some EV.FINISHED).

(** ** Leftover time of ActionWaitAll, as the specification words it *)

(** The leftover of a child that the call advances: the child is started
    when it is still in [INIT], and advanced when it is then running. *)
Definition advanced_leftover (env : Env) (intervalTime : Q) (c : Action) : option Q :=
  match
    (c1 <- (if IsInit c.1 then Start c else ret c) ;;
     if IsRunning c1.1 then r <- Update env c1 intervalTime ;; ret (Some r.2)
     else ret None)
  with
  | Ok o _ => o
  | Fault => None
  end.

(** The minimum of the leftovers, seeded at 0. *)
Definition min_seeded_at_0 (lefts : list Q) : Q := fold_left Qmin lefts 0%Q.

Definition Qsum (l : list Q) : Q := fold_right Qplus 0%Q l.

(** Time consumed by a call: what it was given minus what it returned. *)
Definition consumed (deltas lefts : list Q) : Q :=
  Qsum (zip_with Qminus deltas lefts).

(** ** class ActionManager

    [_actions] is an [unordered_map]; its iteration order is the one of
    [map_to_list].  The notifications of a trace are relative to the root
    action the registry called into. *)

(** [Start] takes a [shared_ptr]: the caller keeps the action.  The second
    component of the result is that action after the call. *)
Definition ActionManager_Start (name : string) (action : Action)
  (_actions : gmap string Action) : Exec (gmap string Action * Action) :=
  match _actions !! name with
  | Some _ => ret (_actions, action)
  | None =>
      action' <- Start action ;;
      ret (<[name := action']> _actions, action')
  end.

Definition ActionManager_Pause (name : string) (_actions : gmap string Action)
  : Exec (gmap string Action) :=
  match _actions !! name with
  | Some a => a' <- Pause a ;; ret (<[name := a']> _actions)
  | None => ret _actions
  end.

Definition ActionManager_Resume (name : string) (_actions : gmap string Action)
  : Exec (gmap string Action) :=
  match _actions !! name with
  | Some a => a' <- Resume a ;; ret (<[name := a']> _actions)
  | None => ret _actions
  end.

Definition ActionManager_Stop (name : string) (_actions : gmap string Action)
  : Exec (gmap string Action) :=
  match _actions !! name with
  | Some a => Stop a ;;; ret (delete name _actions)
  | None => ret _actions
  end.

(** The loop of [ActionManager::Update] over the entries [its]. *)
Fixpoint ActionManager_Update_loop (env : Env) (its : list (string * Action))
  (intervalTime : Q) (_actions : gmap string Action) : Exec (gmap string Action) :=
  match its with
  | [] => ret _actions
  | del :: its' =>
      r <- Update env del.2 intervalTime ;;
      ActionManager_Update_loop env its' intervalTime
        (if IsFinished r.1.1 then delete del.1 _actions
         else <[del.1 := r.1]> _actions)
  end.

Definition ActionManager_Update (env : Env) (intervalTime : Q)
  (_actions : gmap string Action) : Exec (gmap string Action) :=
  ActionManager_Update_loop env (map_to_list _actions) intervalTime _actions.

Definition ActionManager_GetActionSize (_actions : gmap string Action) : nat :=
  size _actions.

Definition ActionManager_IsExist (name : string) (_actions : gmap string Action) : bool :=
  match _actions !! name with
  | Some _ => true
  | None => false
  end.

(** ** Construction

    A new action has [_status{INIT}] and the observers added to it; the
    constructors give the members their initial values. *)
Definition new_Action (observers : list nat) : Base := mkBase ST.INIT observers.

Definition new_ActionQueue (observers : list nat) (l : list Action) : Action :=
  (new_Action observers, ActionQueue l 0).
Definition new_ActionWaitAny (observers : list nat) (l : list Action) : Action :=
  (new_Action observers, ActionWaitAny l).
Definition new_ActionWaitAll (observers : list nat) (l : list Action) : Action :=
  (new_Action observers, ActionWaitAll l).
Definition new_ActionWaitForTime (observers : list nat) (waitTime : Q) : Action :=
  (new_Action observers, ActionWaitForTime waitTime 0 false).
Definition new_ActionFunction (observers : list nat) (func : nat) : Action :=
  (new_Action observers, ActionFunction func false).

(** [AddAction]: [_actions.emplace_back(action)]. *)
Definition AddAction (action : Action) (a : Action) : Action :=
  match a.2 with
  | ActionQueue l i => (a.1, ActionQueue (l ++ [action]) i)
  | ActionWaitAny l => (a.1, ActionWaitAny (l ++ [action]))
  | ActionWaitAll l => (a.1, ActionWaitAll (l ++ [action]))
  | _ => a
  end.

(** [_OnEvent] of an action with observers [obs], seen from [p] levels up. *)
Definition notifications (p : list nat) (obs : list nat) (e : EV.t) : Trace :=
  map (fun f => Notify p f e) obs.

(** An environment for the examples: every watched variable is 0. *)
Definition env0 : Env := fun _ => 0%Z.

(** A paused queue whose only child has not been started. *)
Definition paused_queue : Action :=
  (mkBase ST.PAUSED [9], ActionQueue [new_ActionFunction [7] 1] 0).

(** A group that is paused right after its start, before any update. *)
Definition paused_group : Action :=
  (mkBase ST.PAUSED [9], ActionWaitAll [new_ActionFunction [7] 1]).

(** The same group once its child has run. *)
Definition finished_group : Action :=
  (mkBase ST.FINISHED [9], ActionWaitAll [(mkBase ST.FINISHED [7], ActionFunction 1 true)]).

(** ** Cancellations in a trace *)

(** No observer was told of a cancellation. *)
Definition no_cancel (t : Trace) : Prop :=
  forall p f, Notify p f EV.CANCELED ∉ t.

(** ** More of class Action *)

(** The values of [ENUM_ACTION_STATUS] ([uint8_t], in declaration order). *)
Definition status_value (s : ST.t) : Z :=
  match s with
  | ST.INIT => 0
  | ST.RUNNING => 1
  | ST.PAUSED => 2
  | ST.FINISHED => 3
  | ST.CANCELED => 4
  end.

(** [IsEndOfLife]: [FINISHED <= _status]. *)
Definition IsEndOfLife (b : Base) : bool :=
  (status_value ST.FINISHED <=? status_value (_status b))%Z.

Definition GetStatus (b : Base) : ST.t := _status b.

(** ** More of class ActionManager *)

Section ForAll.
Variable f : Action -> Exec Action.

(** [for (auto& pair : _actions) pair.second->f();] over the entries [its]. *)
Fixpoint ActionManager_for_all_loop (its : list (string * Action))
  (_actions : gmap string Action) : Exec (gmap string Action) :=
  match its with
  | [] => ret _actions
  | entry :: its' =>
      a' <- f entry.2 ;;
      ActionManager_for_all_loop its' (<[entry.1 := a']> _actions)
  end.
End ForAll.

Definition ActionManager_PauseAll (_actions : gmap string Action)
  : Exec (gmap string Action) :=
  ActionManager_for_all_loop Pause (map_to_list _actions) _actions.

Definition ActionManager_ResumeAll (_actions : gmap string Action)
  : Exec (gmap string Action) :=
  ActionManager_for_all_loop Resume (map_to_list _actions) _actions.

(** The loop of [ActionManager::StopAll]: stop, then erase. *)
Fixpoint ActionManager_StopAll_loop (its : list (string * Action))
  (_actions : gmap string Action) : Exec (gmap string Action) :=
  match its with
  | [] => ret _actions
  | del :: its' =>
      Stop del.2 ;;;
      ActionManager_StopAll_loop its' (delete del.1 _actions)
  end.

Definition ActionManager_StopAll (_actions : gmap string Action)
  : Exec (gmap string Action) :=
  ActionManager_StopAll_loop (map_to_list _actions) _actions.

(** [GetActionName]: the key found, or the empty string. *)
Definition ActionManager_GetActionName (name : string)
  (_actions : gmap string Action) : string :=
  match _actions !! name with
  | Some _ => name
  | None => ""
  end.

(** ** Predicates on action trees *)

(** No action of the tree below the root is an [ActionQueue], and the root
    is none either. *)
Fixpoint queue_free (d : Derived) : bool :=
  match d with
  | ActionQueue _ _ => false
  | ActionWaitAny l | ActionWaitAll l =>
      forallb (fun a : Action => queue_free a.2) l
  | ActionChecker _ _ _ | ActionWaitForTime _ _ _ | ActionFunction _ _ => true
  end.

(** No action of the tree is paused. *)
Fixpoint none_paused (b : Base) (d : Derived) : bool :=
  negb (IsPaused b) &&
  match d with
  | ActionQueue l _ | ActionWaitAny l | ActionWaitAll l =>
      forallb (fun a : Action => none_paused a.1 a.2) l
  | ActionChecker _ _ _ | ActionWaitForTime _ _ _ | ActionFunction _ _ => true
  end.

(** The maximum of the leftovers, seeded at 0. *)
Definition max_seeded_at_0 (lefts : list Q) : Q := fold_left Qmax lefts 0%Q.

(** The callbacks called, in call order. *)
Definition invoked (t : Trace) : list nat :=
  omap (fun c => match c with Invoke f => Some f | Notify _ _ _ => None end) t.

(** The action is canceled, and so is every action that a [Stop] of it
    reaches: all children of a WaitAny or WaitAll, the child under the
    cursor of a queue, and so on below them. *)
Fixpoint stopped (b : Base) (d : Derived) {struct d} : bool :=
  IsCanceled b &&
  match d with
  | ActionQueue l i =>
      (fix under_cursor (l : list Action) (i : nat) : bool :=
         match l with
         | [] => false
         | a :: rest =>
             match i with
             | O => stopped a.1 a.2
             | S i' => under_cursor rest i'
             end
         end) l i
  | ActionWaitAny l | ActionWaitAll l =>
      forallb (fun a : Action => stopped a.1 a.2) l
  | ActionChecker _ _ _ | ActionWaitForTime _ _ _ | ActionFunction _ _ => true
  end.

(** ** Time values in binary64

    A [double] is an IEEE 754 binary64 number: a sum or a difference is
    rounded to the nearest representable number, ties to even, and a
    comparison with a NaN is false.  The operations are those of the
    library's specification of floating-point arithmetic, at precision 53
    and maximal exponent 1024. *)
Definition double : Type := spec_float.

Module binary64.
Definition prec : Z := 53.
Definition emax : Z := 1024.

(** [0] and [0.0] *)
Definition zero : double := S754_zero false.

(** [x + y], [x - y], [x / y] *)
Definition add : double -> double -> double := SFadd prec emax.
Definition sub : double -> double -> double := SFsub prec emax.
Definition div : double -> double -> double := SFdiv prec emax.

(** [x >= y], [x < y] *)
Definition geb (x y : double) : bool :=
  match SFcompare x y with Some Gt | Some Eq => true | _ => false end.
Definition ltb (x y : double) : bool :=
  match SFcompare x y with Some Lt => true | _ => false end.

(** The [double] of an integer, and of the decimal [n]e-[k]: the literal
    [0.6] is [decimal 6 1], the [double] nearest to 6/10. *)
Definition of_Z (z : Z) : double := binary_normalize prec emax z 0 false.
Definition decimal (n : Z) (k : nat) : double := div (of_Z n) (of_Z (10 ^ Z.of_nat k)).

(** Neither an infinity nor a NaN. *)
Definition finite (x : double) : bool :=
  match x with
  | S754_zero _ | S754_finite _ _ _ => true
  | S754_infinity _ | S754_nan => false
  end.

(** The mantissa and the exponent are those of a binary64 number. *)
Definition valid (x : double) : bool := valid_binary prec emax x.

(** The rational a finite [double] stands for. *)
Definition value (x : double) : Q :=
  match x with
  | S754_finite s m e => inject_Z (cond_Zopp s (Zpos m)) * 2 ^ e
  | _ => 0
  end.

(** The same, counted in units of [2 ^ -1074], the smallest positive
    [double]. *)
Definition units (x : double) : Z :=
  match x with
  | S754_finite s m e => cond_Zopp s (Zpos m * 2 ^ (e + 1074))
  | _ => 0
  end.

(** [r] is a finite [double], and it stands for [q]: an operation whose
    result is [exact] for the result in the rationals has not rounded. *)
Definition exact (r : double) (q : Q) : Prop :=
  finite r = true /\ valid r = true /\ value r == q.
End binary64.

(** ** ActionWaitForTime in binary64

    The timer with its members as the source declares them, [double] for
    [double]. *)
Record ActionWaitForTime64 := mkActionWaitForTime64 {
  _waitTime : double;
  _delayedTime : double;
  _done : bool
}.

Definition Timer : Type := Base * ActionWaitForTime64.

Definition new_Timer (observers : list nat) (waitTime : double) : Timer :=
  (new_Action observers, mkActionWaitForTime64 waitTime binary64.zero false).

(** [ActionWaitForTime::Update], with [Action::Update] and
    [Action::UpdateStatus] behind it. *)
Definition ActionWaitForTime_Update64 (a : Timer) (intervalTime : double)
  : Exec (Timer * double) :=
  if negb (IsRunning a.1) then ret (a, binary64.zero)
  else
    let used := intervalTime in
    let reached := binary64.geb (binary64.add (_delayedTime a.2) used) (_waitTime a.2) in
    let used := if reached then binary64.sub (_waitTime a.2) (_delayedTime a.2) else used in
    let done := reached in
    let delayedTime := binary64.add (_delayedTime a.2) used in
    b' <- Action_UpdateStatus done a.1 ;;
    ret ((b', mkActionWaitForTime64 (_waitTime a.2) delayedTime done),
         binary64.sub intervalTime used).

(** Successive [Update] calls; the result lists what each call returned. *)
Fixpoint updates64 (deltas : list double) (a : Timer) : Exec (Timer * list double) :=
  match deltas with
  | [] => ret (a, [])
  | intervalTime :: deltas' =>
      r <- ActionWaitForTime_Update64 a intervalTime ;;
      r' <- updates64 deltas' r.1 ;;
      ret (r'.1, r.2 :: r'.2)
  end.

(** What [_delayedTime + used] is at each of the calls, for a timer that
    has accumulated [delayedTime] and keeps running. *)
Fixpoint accumulated (delayedTime : double) (deltas : list double) : list double :=
  match deltas with
  | [] => []
  | intervalTime :: deltas' =>
      binary64.add delayedTime intervalTime
      :: accumulated (binary64.add delayedTime intervalTime) deltas'
  end.

(** The cumulative delta at each of the calls, in the rationals. *)
Fixpoint cumulative (sum : Q) (deltas : list Q) : list Q :=
  match deltas with
  | [] => []
  | intervalTime :: deltas' =>
      (sum + intervalTime)%Q :: cumulative (sum + intervalTime)%Q deltas'
  end.

(** ** ActionWaitAll over timers, in binary64 *)

Definition TimerGroup : Type := Base * list Timer.

Definition new_TimerGroup (observers : list nat) (l : list Timer) : TimerGroup :=
  (new_Action observers, l).

Definition Start64 (a : TimerGroup) : Exec TimerGroup :=
  b' <- Action_Start a.1 ;; ret (b', a.2).

(** The [for] loop of [ActionWaitAll::Update]. *)
Fixpoint ActionWaitAll_loop64 (l : list Timer) (pos : nat)
  (intervalTime minLeftTime : double) {struct l} : Exec (list Timer * double) :=
  match l with
  | [] => ret ([], minLeftTime)
  | action :: rest =>
      r <- in_child pos (
        b1 <- (if IsInit action.1 then Action_Start action.1 else ret action.1) ;;
        if IsRunning b1 then
          u <- ActionWaitForTime_Update64 (b1, action.2) intervalTime ;;
          ret (u.1, if binary64.ltb u.2 minLeftTime then u.2 else minLeftTime)
        else ret ((b1, action.2), minLeftTime)) ;;
      r' <- ActionWaitAll_loop64 rest (S pos) intervalTime r.2 ;;
      ret (r.1 :: r'.1, r'.2)
  end.

(** [ActionWaitAll::Update]; [IsDone] asks every child for [IsFinished]. *)
Definition ActionWaitAll_Update64 (a : TimerGroup) (intervalTime : double)
  : Exec (TimerGroup * double) :=
  r <- ActionWaitAll_loop64 a.2 0 intervalTime binary64.zero ;;
  b' <- Action_UpdateStatus (forallb (fun c : Timer => IsFinished c.1) r.1) a.1 ;;
  ret ((b', r.1), r.2).

Fixpoint group_updates64 (deltas : list double) (a : TimerGroup)
  : Exec (TimerGroup * list double) :=
  match deltas with
  | [] => ret (a, [])
  | intervalTime :: deltas' =>
      r <- ActionWaitAll_Update64 a intervalTime ;;
      r' <- group_updates64 deltas' r.1 ;;
      ret (r'.1, r.2 :: r'.2)
  end.

(** A timer child of a group is finished once the group has been updated
    with [deltas]: it is finished already, or it is running, or still to be
    started by the group, and the time it has accumulated reaches its
    duration at one of the updates. *)
Definition reaches64 (deltas : list double) (c : Timer) : Prop :=
  _status c.1 = ST.FINISHED \/
  ((_status c.1 = ST.INIT \/ _status c.1 = ST.RUNNING) /\
   Exists (fun s => binary64.geb s (_waitTime c.2) = true)
          (accumulated (_delayedTime c.2) deltas)).

(** * Properties *)

(** ** The execution monad *)

Lemma bind_Ok {A B} (m : Exec A) (k : A -> Exec B) b t :
  bind m k = Ok b t ->
  exists a t1 t2, m = Ok a t1 /\ k a = Ok b t2 /\ t = t1 ++ t2.
Proof.
  unfold bind. destruct m as [a t1|]; [|discriminate].
  destruct (k a) as [b' t2|] eqn:Hk; [|discriminate].
  intros [= -> <-]. eauto 6.
Qed.

Lemma bind_Ok_l {A B} (m : Exec A) (k : A -> Exec B) a t :
  m = Ok a t ->
  bind m k = match k a with Ok b t' => Ok b (t ++ t') | Fault => Fault end.
Proof. intros ->. reflexivity. Qed.

Lemma bind_ret_l {A B} (a : A) (k : A -> Exec B) : bind (ret a) k = k a.
Proof. unfold bind, ret. destruct (k a); reflexivity. Qed.

Lemma bind_Fault {A B} (k : A -> Exec B) : bind Fault k = Fault.
Proof. reflexivity. Qed.

Lemma bind_assoc {A B C} (m : Exec A) (k : A -> Exec B) (h : B -> Exec C) :
  bind (bind m k) h = bind m (fun a => bind (k a) h).
Proof.
  destruct m as [a t|]; [|reflexivity]. simpl.
  destruct (k a) as [b t'|]; [|reflexivity]. simpl.
  destruct (h b) as [c t''|]; [|reflexivity].
  by rewrite app_assoc.
Qed.

Lemma in_child_Ok {A} i (m : Exec A) a t :
  in_child i m = Ok a t -> exists t0, m = Ok a t0 /\ t = map (relocate i) t0.
Proof. destruct m; [|discriminate]. intros [= -> <-]. eauto. Qed.

Ltac exec_inv :=
  repeat match goal with
  | H : bind _ _ = Ok _ _ |- _ =>
      let a := fresh "r" in let t1 := fresh "t" in let t2 := fresh "t" in
      let H1 := fresh "E" in let H2 := fresh "E" in
      apply bind_Ok in H; destruct H as (a & t1 & t2 & H1 & H2 & ->)
  | H : in_child _ _ = Ok _ _ |- _ =>
      let t0 := fresh "t" in let H1 := fresh "E" in
      apply in_child_Ok in H; destruct H as (t0 & H1 & ->)
  | H : ret _ = Ok _ _ |- _ => unfold ret in H
  | H : emit _ = Ok _ _ |- _ => unfold emit in H
  | H : Ok _ _ = Ok _ _ |- _ => injection H as H; subst
  | H : Fault = Ok _ _ |- _ => discriminate H
  end.

(** ** Comparisons of time values *)

Lemma gtb_true x y : gtb x y = true <-> (y < x)%Q.
Proof.
  unfold gtb. rewrite Qlt_alt, <- (Qcompare_antisym x y).
  destruct (x ?= y)%Q; simpl; split; congruence.
Qed.

Lemma ltb_true x y : ltb x y = true <-> (x < y)%Q.
Proof. unfold ltb. rewrite Qlt_alt. destruct (x ?= y)%Q; split; congruence. Qed.

Lemma geb_true x y : geb x y = true <-> (y <= x)%Q.
Proof.
  unfold geb. rewrite Qle_alt, <- (Qcompare_antisym x y).
  destruct (x ?= y)%Q; simpl; split; congruence.
Qed.

Lemma geb_false x y : geb x y = false <-> (x < y)%Q.
Proof.
  rewrite <- not_true_iff_false, geb_true. split; [apply Qnot_le_lt | apply Qlt_not_le].
Qed.

Lemma gtb_false x y : gtb x y = false <-> (x <= y)%Q.
Proof.
  rewrite <- not_true_iff_false, gtb_true. split; [apply Qnot_lt_le | apply Qle_not_lt].
Qed.

Lemma ltb_false x y : ltb x y = false <-> (y <= x)%Q.
Proof.
  rewrite <- not_true_iff_false, ltb_true. split; [apply Qnot_lt_le | apply Qle_not_lt].
Qed.

(** ** Status tests *)

Lemma ST_eqb_eq x y : ST.eqb x y = true <-> x = y.
Proof. destruct x, y; simpl; split; congruence. Qed.

Lemma ST_eqb_neq x y : ST.eqb x y = false <-> x <> y.
Proof. rewrite <- not_true_iff_false, ST_eqb_eq. reflexivity. Qed.

Lemma IsRunning_true b : IsRunning b = true <-> _status b = ST.RUNNING.
Proof. unfold IsRunning. rewrite ST_eqb_eq. split; congruence. Qed.

Lemma IsFinished_true b : IsFinished b = true <-> _status b = ST.FINISHED.
Proof. unfold IsFinished. rewrite ST_eqb_eq. split; congruence. Qed.

Lemma IsInit_true b : IsInit b = true <-> _status b = ST.INIT.
Proof. unfold IsInit. rewrite ST_eqb_eq. split; congruence. Qed.

(** ** The child under the cursor *)

Lemma at_index_lookup f pos (l : list Action) i :
  at_index f pos l i =
  match l !! i with
  | Some c => c' <- in_child (pos + i) (f c) ;; ret (<[i := c']> l)
  | None => Fault
  end.
Proof.
  revert pos i. induction l as [|a l IH]; intros pos [|i]; simpl; try reflexivity.
  - by rewrite Nat.add_0_r.
  - rewrite IH. replace (S pos + i) with (pos + S i) by lia.
    destruct (l !! i) as [c|]; [|reflexivity].
    rewrite bind_assoc. f_equal.
Qed.

Lemma Action_Pause_Ok b : exists b' t, Action_Pause b = Ok b' t.
Proof. unfold Action_Pause. destruct (ST.eqb _ _); simpl; eauto. Qed.

Lemma Action_Resume_Ok b : exists b' t, Action_Resume b = Ok b' t.
Proof. unfold Action_Resume. destruct (ST.eqb _ _); simpl; eauto. Qed.

Lemma Action_Stop_Ok b : exists b' t, Action_Stop b = Ok b' t.
Proof. unfold Action_Stop. simpl. eauto. Qed.

Lemma Action_Start_Ok b : exists b' t, Action_Start b = Ok b' t.
Proof. unfold Action_Start. destruct (ST.eqb _ _); simpl; eauto. Qed.

(** C3. [ActionQueue::Pause], [Resume] and [Stop] reach for
    [_actions[_index]] whatever the status of the queue is.  The access is
    in range exactly when [_index < _actions.size()]; when [IsDone()] holds
    (no child, or the cursor past the last child) the three methods index
    past the end of the child list. *)
Theorem ActionQueue_cursor_access (b : Base) (l : list Action) (i : nat) :
  (IsDone (ActionQueue l i) = true <-> length l <= i) /\
  (length l <= i ->
     Pause (b, ActionQueue l i) = Fault /\
     Resume (b, ActionQueue l i) = Fault /\
     Stop (b, ActionQueue l i) = Fault) /\
  (i < length l ->
     exists c, l !! i = Some c /\
       Pause (b, ActionQueue l i) =
         (b' <- Action_Pause b ;; c' <- in_child i (Pause c) ;;
          ret (b', ActionQueue (<[i := c']> l) i)) /\
       Resume (b, ActionQueue l i) =
         (b' <- Action_Resume b ;; c' <- in_child i (Resume c) ;;
          ret (b', ActionQueue (<[i := c']> l) i)) /\
       Stop (b, ActionQueue l i) =
         (b' <- Action_Stop b ;; c' <- in_child i (Stop c) ;;
          ret (b', ActionQueue (<[i := c']> l) i))).
Proof.
  split; [simpl; apply Nat.leb_le|]. split.
  - intros Hi. apply lookup_ge_None in Hi.
    unfold Pause, Resume, Stop; simpl. rewrite !at_index_lookup, Hi.
    destruct (Action_Pause_Ok b) as (? & ? & ->).
    destruct (Action_Resume_Ok b) as (? & ? & ->).
    destruct (Action_Stop_Ok b) as (? & ? & E). unfold Action_Stop in E. simpl in E.
    repeat split.
  - intros Hi. destruct (lookup_lt_is_Some_2 l i Hi) as [c Hc].
    exists c. split; [assumption|].
    unfold Pause at 1, Resume at 1, Stop at 1; simpl. rewrite !at_index_lookup, Hc. simpl.
    repeat split.
    + destruct (Action_Pause_Ok b) as (? & ? & ->). simpl.
      fold (Pause c). destruct (in_child i (Pause c)); cbn; rewrite ?app_nil_r; reflexivity.
    + destruct (Action_Resume_Ok b) as (? & ? & ->). simpl.
      fold (Resume c). destruct (in_child i (Resume c)); cbn; rewrite ?app_nil_r; reflexivity.
    + fold (Stop c). destruct (in_child i (Stop c)); cbn; rewrite ?app_nil_r; reflexivity.
Qed.

Lemma ActionQueue_cursor_access_witness :
  Pause (mkBase ST.RUNNING [], ActionQueue [] 0) = Fault /\
  Resume (mkBase ST.RUNNING [], ActionQueue [] 0) = Fault /\
  Stop (mkBase ST.RUNNING [], ActionQueue [] 0) = Fault.
Proof.
  apply (ActionQueue_cursor_access (mkBase ST.RUNNING []) [] 0). simpl. lia.
Defined.

(** ** Update outside RUNNING *)

(** C2, as stated, fails on a composite.  [ActionQueue::Update] does not
    look at the status of the queue before it drives the child under the
    cursor: on a queue that was started and paused it starts the child,
    pauses it, and hands the whole [intervalTime] back. *)
Lemma Update_not_running_counterexample :
  run_ops [OpStart; OpPause] (new_ActionQueue [9] [new_ActionFunction [7] 1]) =
    Ok paused_queue [Notify [] 9 EV.STARTED; Notify [] 9 EV.PAUSED] /\
  IsRunning paused_queue.1 = false /\
  (0 <= 5)%Q /\
  Update env0 paused_queue 5 =
    Ok ((mkBase ST.PAUSED [9],
         ActionQueue [(mkBase ST.PAUSED [7], ActionFunction 1 false)] 0), 5%Q)
       [Notify [0] 7 EV.STARTED; Notify [0] 7 EV.PAUSED] /\
  Update env0 paused_queue 5 <> Ok (paused_queue, 0%Q) [].
Proof.
  split; [reflexivity|]. split; [reflexivity|]. split; [discriminate|].
  split; [reflexivity|]. discriminate.
Qed.

(** C2, amended.  On a leaf action (checker, timer, function) that is not
    running, [Update] changes nothing, calls nothing and returns 0. *)
Theorem leaf_Update_not_running (env : Env) (b : Base) (d : Derived) (intervalTime : Q) :
  is_composite d = false ->
  IsRunning b = false ->
  Update env (b, d) intervalTime = Ok ((b, d), 0%Q) [].
Proof.
  intros Hd Hb. destruct d; try discriminate Hd; unfold Update; simpl; rewrite Hb; reflexivity.
Qed.

Lemma leaf_Update_not_running_witness :
  Update env0 (mkBase ST.PAUSED [3], ActionWaitForTime 2 (1 # 2) false) 4 =
  Ok ((mkBase ST.PAUSED [3], ActionWaitForTime 2 (1 # 2) false), 0%Q) [].
Proof. apply leaf_Update_not_running; reflexivity. Defined.

(** ** Sequence *)

(** C4. A started sequence of two new function actions, updated once with
    5.0: both callbacks are called, in order, the cursor ends behind both
    children, the sequence is finished and the call returns 5.0. *)
Theorem ActionQueue_cascades (env : Env) (obs o1 o2 : list nat) (f1 f2 : nat) :
  (q <- Start (new_ActionQueue obs [new_ActionFunction o1 f1; new_ActionFunction o2 f2]) ;;
   Update env q 5) =
  Ok ((mkBase ST.FINISHED obs,
       ActionQueue [(mkBase ST.FINISHED o1, ActionFunction f1 true);
                    (mkBase ST.FINISHED o2, ActionFunction f2 true)] 2), 5%Q)
     (notifications [] obs EV.STARTED ++
      notifications [0] o1 EV.STARTED ++ [Invoke f1] ++ notifications [0] o1 EV.FINISHED ++
      notifications [1] o2 EV.STARTED ++ [Invoke f2] ++ notifications [1] o2 EV.FINISHED ++
      notifications [] obs EV.FINISHED).
Proof.
  cbn. change (gtb 5 0) with true. cbn. change (gtb 5 0) with true. cbn.
  unfold notifications. f_equal.
  rewrite !app_nil_r, !map_app. cbn. rewrite !map_map. cbn.
  rewrite <- !app_assoc. reflexivity.
Qed.

(** ** Observer calls of the action itself *)

Lemma own_events_app t1 t2 : own_events (t1 ++ t2) = own_events t1 ++ own_events t2.
Proof. apply omap_app. Qed.

Lemma own_events_relocate i t : own_events (map (relocate i) t) = [].
Proof. induction t as [|[p f e|f] t IH]; simpl; auto. Qed.

Lemma own_events_OnEvent b e u t :
  _OnEvent b e = Ok u t -> own_events t = fired b (Some e).
Proof.
  unfold _OnEvent, emit. intros [= _ <-]. simpl.
  induction (_OnEventFuncs b) as [|f l IH]; simpl; [reflexivity|]. by rewrite <- IH.
Qed.

Lemma at_index_own f pos l i l' t : at_index f pos l i = Ok l' t -> own_events t = [].
Proof.
  revert pos i l' t. induction l as [|a l IH]; intros pos [|i] l' t H; simpl in H;
    exec_inv; rewrite ?own_events_app, ?own_events_relocate; simpl; eauto.
  erewrite IH by eassumption. reflexivity.
Qed.

Lemma for_each_own f pos l l' t : for_each f pos l = Ok l' t -> own_events t = [].
Proof.
  revert pos l' t. induction l as [|a l IH]; intros pos l' t H; simpl in H; exec_inv.
  - reflexivity.
  - rewrite !own_events_app, own_events_relocate. erewrite IH by eassumption. reflexivity.
Qed.

Lemma ActionQueue_loop_own U paused l skip pos dt r t :
  ActionQueue_loop U paused l skip pos dt = Ok r t -> own_events t = [].
Proof.
  revert skip pos dt r t. induction l as [|a l IH]; intros [|skip] pos dt r t H;
    simpl in H; exec_inv; try reflexivity.
  - rewrite own_events_app, own_events_relocate. simpl.
    destruct (IsFinished _); exec_inv; [|reflexivity].
    rewrite own_events_app. erewrite IH by eassumption. reflexivity.
  - rewrite own_events_app. erewrite IH by eassumption. reflexivity.
Qed.

Lemma ActionWaitAny_loop_own U l pos dt m r t :
  ActionWaitAny_loop U l pos dt m = Ok r t -> own_events t = [].
Proof.
  revert pos m r t. induction l as [|a l IH]; intros pos m r t H; simpl in H; exec_inv.
  - reflexivity.
  - rewrite !own_events_app, own_events_relocate. erewrite IH by eassumption. reflexivity.
Qed.

Lemma ActionWaitAll_loop_own U l pos dt m r t :
  ActionWaitAll_loop U l pos dt m = Ok r t -> own_events t = [].
Proof.
  revert pos m r t. induction l as [|a l IH]; intros pos m r t H; simpl in H; exec_inv.
  - reflexivity.
  - rewrite !own_events_app, own_events_relocate. erewrite IH by eassumption. reflexivity.
Qed.

(** ** The base-class methods against the table *)

Lemma Action_Start_table c b b' t :
  Action_Start b = Ok b' t ->
  _OnEventFuncs b' = _OnEventFuncs b /\
  exists e, transition c OpStart (_status b) (_status b') e /\ own_events t = fired b e.
Proof.
  unfold Action_Start. intros H. split.
  - destruct (ST.eqb _ _); simpl in H; exec_inv; reflexivity.
  - destruct b as [[] obs]; simpl in H; exec_inv; simpl; rewrite ?app_nil_r;
      first [ exists (Some EV.STARTED); split; [constructor |
                apply (own_events_OnEvent (mkBase ST.RUNNING obs) _ tt); reflexivity]
            | exists None; split; [constructor; discriminate | reflexivity] ].
Qed.

Lemma Action_Pause_table c b b' t :
  Action_Pause b = Ok b' t ->
  _OnEventFuncs b' = _OnEventFuncs b /\
  exists e, transition c OpPause (_status b) (_status b') e /\ own_events t = fired b e.
Proof.
  unfold Action_Pause. intros H. split.
  - destruct (ST.eqb _ _); simpl in H; exec_inv; reflexivity.
  - destruct b as [[] obs]; simpl in H; exec_inv; simpl; rewrite ?app_nil_r;
      first [ exists (Some EV.PAUSED); split; [constructor |
                apply (own_events_OnEvent (mkBase ST.PAUSED obs) _ tt); reflexivity]
            | exists None; split; [constructor; discriminate | reflexivity] ].
Qed.

Lemma Action_Resume_table c b b' t :
  Action_Resume b = Ok b' t ->
  _OnEventFuncs b' = _OnEventFuncs b /\
  exists e, transition c OpResume (_status b) (_status b') e /\ own_events t = fired b e.
Proof.
  unfold Action_Resume. intros H. split.
  - destruct (ST.eqb _ _); simpl in H; exec_inv; reflexivity.
  - destruct b as [[] obs]; simpl in H; exec_inv; simpl; rewrite ?app_nil_r;
      first [ exists (Some EV.RESUMED); split; [constructor |
                apply (own_events_OnEvent (mkBase ST.RUNNING obs) _ tt); reflexivity]
            | exists None; split; [constructor; discriminate | reflexivity] ].
Qed.

Lemma Action_Stop_table c b b' t :
  Action_Stop b = Ok b' t ->
  _OnEventFuncs b' = _OnEventFuncs b /\
  exists e, transition c OpStop (_status b) (_status b') e /\ own_events t = fired b e.
Proof.
  unfold Action_Stop. intros H. simpl in H. exec_inv. split; [reflexivity|].
  exists (Some EV.CANCELED). split; [constructor|].
  rewrite app_nil_r. apply (own_events_OnEvent (set_status ST.CANCELED b) _ tt); reflexivity.
Qed.

Lemma Action_UpdateStatus_cases isDone b b' t :
  Action_UpdateStatus isDone b = Ok b' t ->
  (isDone = true /\ b' = set_status ST.FINISHED b /\
   own_events t = fired b (Some EV.FINISHED)) \/
  (isDone = false /\ b' = b /\ t = []).
Proof.
  unfold Action_UpdateStatus. destruct isDone; simpl; intros H; exec_inv.
  - left. repeat split. rewrite app_nil_r.
    apply (own_events_OnEvent (set_status ST.FINISHED b) _ tt); reflexivity.
  - right. auto.
Qed.

Lemma UpdateStatus_cases b d a' t :
  UpdateStatus (b, d) = Ok a' t ->
  (IsDone d = true /\ a'.1 = set_status ST.FINISHED b /\
   own_events t = fired b (Some EV.FINISHED)) \/
  (IsDone d = false /\ a'.1 = b /\ own_events t = []).
Proof.
  unfold UpdateStatus. destruct d; simpl; intros H;
    try (exec_inv;
         match goal with E : Action_UpdateStatus _ _ = Ok _ _ |- _ =>
           apply Action_UpdateStatus_cases in E;
           destruct E as [(? & -> & ?)|(? & -> & ->)] end;
         [left | right]; rewrite ?app_nil_r; simpl; auto).
  unfold ActionWaitAny_UpdateStatus in H. exec_inv.
  match goal with E : Action_UpdateStatus _ _ = Ok _ _ |- _ =>
    apply Action_UpdateStatus_cases in E;
    destruct E as [(? & -> & ?)|(? & -> & ->)] end.
  - left. destruct (IsFinished _); exec_inv; rewrite ?own_events_app; simpl.
    + match goal with E : for_each _ _ _ = Ok _ _ |- _ =>
        rewrite (for_each_own _ _ _ _ _ E) end.
      rewrite !app_nil_r. auto.
    + rewrite app_nil_r. auto.
  - right. destruct (IsFinished _); exec_inv; rewrite ?own_events_app; simpl; auto.
    match goal with E : for_each _ _ _ = Ok _ _ |- _ =>
      rewrite (for_each_own _ _ _ _ _ E) end.
    auto.
Qed.

Lemma Update_table env b d dt a' left t :
  Update_ env b d dt = Ok (a', left) t ->
  exists e, transition (is_composite d) (OpUpdate env dt) (_status b) (status a') e /\
            own_events t = fired b e.
Proof.
  intros H.
  assert (Hfin : forall d' t0 tl,
             is_composite d = true ->
             UpdateStatus (b, d') = Ok a' t0 -> own_events tl = [] ->
             exists e, transition (is_composite d) (OpUpdate env dt) (_status b) (status a') e /\
                       own_events (tl ++ t0) = fired b e).
  { intros d' t0 tl Hc HU Htl. rewrite own_events_app, Htl. simpl.
    apply UpdateStatus_cases in HU. unfold status.
    destruct HU as [(_ & -> & ->)|(_ & -> & ->)].
    - exists (Some EV.FINISHED). split; [by apply tr_Update_composite | reflexivity].
    - exists None. split; [apply tr_Update_noop | reflexivity]. }
  assert (Hleaf : forall d' t0,
             is_composite d = false -> IsRunning b = true ->
             UpdateStatus (b, d') = Ok a' t0 ->
             exists e, transition (is_composite d) (OpUpdate env dt) (_status b) (status a') e /\
                       own_events t0 = fired b e).
  { intros d' t0 Hc Hr HU.
    apply UpdateStatus_cases in HU. unfold status.
    apply IsRunning_true in Hr.
    destruct HU as [(_ & -> & ->)|(_ & -> & ->)].
    - exists (Some EV.FINISHED). split; [|reflexivity]. rewrite Hr. apply tr_Update_finish.
    - exists None. split; [apply tr_Update_noop | reflexivity]. }
  destruct d; simpl in H.
  - unfold Action_Update in H. exec_inv. rewrite ?app_nil_r. eapply Hfin; eauto using ActionQueue_loop_own.
  - unfold Action_Update in H. exec_inv. rewrite ?app_nil_r. eapply Hfin; eauto using ActionWaitAny_loop_own.
  - unfold Action_Update in H. exec_inv. rewrite ?app_nil_r. eapply Hfin; eauto using ActionWaitAll_loop_own.
  - destruct (IsRunning b) eqn:Hr; simpl in H.
    + unfold Action_Update in H. exec_inv. rewrite ?app_nil_r. eapply Hleaf; [reflexivity | reflexivity | eassumption].
    + exec_inv. exists None. split; [apply tr_Update_noop | reflexivity].
  - destruct (IsRunning b) eqn:Hr; simpl in H.
    + unfold Action_Update in H. exec_inv. rewrite ?app_nil_r. eapply Hleaf; [reflexivity | reflexivity | eassumption].
    + exec_inv. exists None. split; [apply tr_Update_noop | reflexivity].
  - destruct (IsRunning b) eqn:Hr; simpl in H.
    + unfold Action_Update in H. exec_inv. rewrite ?app_nil_r.
      exists (Some EV.FINISHED). split.
      * unfold status. simpl. apply IsRunning_true in Hr. rewrite Hr. apply tr_Update_finish.
      * change (own_events (Invoke _func :: ?t)) with (own_events t).
        apply (own_events_OnEvent b _ tt). reflexivity.
    + exec_inv. exists None. split; [apply tr_Update_noop | reflexivity].
Qed.

Lemma Pause_table b d a' t :
  Pause_ b d = Ok a' t ->
  exists e, transition (is_composite d) OpPause (_status b) (status a') e /\
            own_events t = fired b e.
Proof.
  intros H.
  assert (exists b' t1 t2, Action_Pause b = Ok b' t1 /\ t = t1 ++ t2 /\
                           a'.1 = b' /\ own_events t2 = []) as (b' & t1 & t2 & Hb & -> & <- & Ht2).
  { destruct d; simpl in H; exec_inv; do 3 eexists; (split; [eassumption|]);
      (split; [reflexivity|]); split; try reflexivity;
      rewrite ?own_events_app; simpl;
      try (erewrite at_index_own by eassumption);
      try (erewrite for_each_own by eassumption); reflexivity. }
  apply (Action_Pause_table (is_composite d)) in Hb. destruct Hb as (_ & e & He & Hev).
  exists e. split; [exact He|]. rewrite own_events_app, Ht2, app_nil_r. exact Hev.
Qed.

Lemma Resume_table b d a' t :
  Resume_ b d = Ok a' t ->
  exists e, transition (is_composite d) OpResume (_status b) (status a') e /\
            own_events t = fired b e.
Proof.
  intros H.
  assert (exists b' t1 t2, Action_Resume b = Ok b' t1 /\ t = t1 ++ t2 /\
                           a'.1 = b' /\ own_events t2 = []) as (b' & t1 & t2 & Hb & -> & <- & Ht2).
  { destruct d; simpl in H; exec_inv; do 3 eexists; (split; [eassumption|]);
      (split; [reflexivity|]); split; try reflexivity;
      rewrite ?own_events_app; simpl;
      try (erewrite at_index_own by eassumption);
      try (erewrite for_each_own by eassumption); reflexivity. }
  apply (Action_Resume_table (is_composite d)) in Hb. destruct Hb as (_ & e & He & Hev).
  exists e. split; [exact He|]. rewrite own_events_app, Ht2, app_nil_r. exact Hev.
Qed.

Lemma Stop_table b d a' t :
  Stop_ b d = Ok a' t ->
  exists e, transition (is_composite d) OpStop (_status b) (status a') e /\
            own_events t = fired b e.
Proof.
  intros H.
  assert (exists b' t1 t2, Action_Stop b = Ok b' t1 /\ t = t1 ++ t2 /\
                           a'.1 = b' /\ own_events t2 = []) as (b' & t1 & t2 & Hb & -> & <- & Ht2).
  { destruct d; cbn [Stop_] in H; exec_inv; do 3 eexists; (split; [eassumption|]);
      (split; [reflexivity|]); split; try reflexivity;
      rewrite ?own_events_app; simpl;
      try (erewrite at_index_own by eassumption);
      try (erewrite for_each_own by eassumption); reflexivity. }
  apply (Action_Stop_table (is_composite d)) in Hb. destruct Hb as (_ & e & He & Hev).
  exists e. split; [exact He|]. rewrite own_events_app, Ht2, app_nil_r. exact Hev.
Qed.

(** ** State legality *)

(** C1, as stated, fails on a composite: its [Update] runs the completion
    check whatever the status is.  A group that is started and paused before
    its first update still starts and drives its child, and goes from
    [PAUSED] to [FINISHED]; updated again, it stays [FINISHED] and fires
    [FINISHED] once more. *)
Lemma status_table_counterexample :
  run_ops [OpStart; OpPause] (new_ActionWaitAll [9] [new_ActionFunction [7] 1]) =
    Ok paused_group [Notify [] 9 EV.STARTED; Notify [] 9 EV.PAUSED] /\
  run_op (OpUpdate env0 5) paused_group =
    Ok finished_group
       [Notify [0] 7 EV.STARTED; Invoke 1; Notify [0] 7 EV.FINISHED;
        Notify [] 9 EV.FINISHED] /\
  status paused_group = ST.PAUSED /\
  status finished_group = ST.FINISHED /\
  ~ (exists e, transition false (OpUpdate env0 5) ST.PAUSED ST.FINISHED e) /\
  run_op (OpUpdate env0 5) finished_group =
    Ok finished_group [Notify [] 9 EV.FINISHED] /\
  ~ (exists e, transition false (OpUpdate env0 5) ST.FINISHED ST.FINISHED e /\
               own_events [Notify [] 9 EV.FINISHED] = fired finished_group.1 e).
Proof.
  repeat split; try reflexivity.
  - intros [e H]. inversion H; discriminate.
  - intros [e [H Hev]]. inversion H; subst; discriminate.
Qed.

(** C1, amended.  Whatever the action and its state, a call of [Start],
    [Pause], [Resume] or [Stop] that returns follows the table, and so does
    [Update] on a leaf action: the status moves as the row says and the
    observers of the action are called with the event of the row, or the
    guard fails and then the status stays and no observer of the action is
    called.  [Update] on a composite has one more row: when [IsDone()] holds
    after the children were driven, the status becomes [FINISHED] and
    [FINISHED] is fired, from any status. *)
Theorem status_follows_table (op : Op) (a a' : Action) (t : Trace) :
  run_op op a = Ok a' t ->
  exists e, transition (is_composite a.2) op (status a) (status a') e /\
            own_events t = fired a.1 e.
Proof.
  destruct a as [b d]. destruct op; simpl; intros H.
  - unfold Start in H. simpl in H. exec_inv.
    match goal with E : Action_Start _ = Ok _ _ |- _ =>
      apply (Action_Start_table (is_composite d)) in E; destruct E as (_ & e & He & Hev) end.
    exists e. rewrite app_nil_r. auto.
  - by apply Pause_table.
  - by apply Resume_table.
  - by apply Stop_table.
  - exec_inv. rewrite app_nil_r. destruct r as [a1 left]. by eapply Update_table.
Qed.

Lemma status_follows_table_witness :
  exists e, transition true (OpUpdate env0 5) ST.PAUSED ST.FINISHED e /\
            own_events [Notify [0] 7 EV.STARTED; Invoke 1; Notify [0] 7 EV.FINISHED;
                        Notify [] 9 EV.FINISHED] = fired paused_group.1 e.
Proof.
  apply (status_follows_table (OpUpdate env0 5) paused_group finished_group).
  reflexivity.
Defined.

(** ** The timer *)

Lemma timer_Update_reaches env b waitTime delayedTime done intervalTime :
  IsRunning b = true ->
  (waitTime <= delayedTime + intervalTime)%Q ->
  Update_ env b (ActionWaitForTime waitTime delayedTime done) intervalTime =
  Ok ((set_status ST.FINISHED b,
       ActionWaitForTime waitTime (delayedTime + (waitTime - delayedTime)) true),
      (intervalTime - (waitTime - delayedTime))%Q)
     (notifications [] (_OnEventFuncs b) EV.FINISHED).
Proof.
  intros Hr Hle. apply geb_true in Hle. cbn [Update_]. rewrite Hr, Hle. cbn.
  by rewrite !app_nil_r.
Qed.

Lemma timer_Update_short env b waitTime delayedTime done intervalTime :
  IsRunning b = true ->
  (delayedTime + intervalTime < waitTime)%Q ->
  Update_ env b (ActionWaitForTime waitTime delayedTime done) intervalTime =
  Ok ((b, ActionWaitForTime waitTime (delayedTime + intervalTime) false),
      (intervalTime - intervalTime)%Q) [].
Proof.
  intros Hr Hlt. apply geb_false in Hlt. cbn [Update_]. rewrite Hr, Hlt. reflexivity.
Qed.

Lemma timer_Update_idle env b waitTime delayedTime done intervalTime :
  IsRunning b = false ->
  Update_ env b (ActionWaitForTime waitTime delayedTime done) intervalTime =
  Ok ((b, ActionWaitForTime waitTime delayedTime done), 0%Q) [].
Proof. intros Hr. cbn [Update_]. rewrite Hr. reflexivity. Qed.

(** ** WaitAny *)

Lemma Update_ActionWaitAny env b l intervalTime :
  Update_ env b (ActionWaitAny l) intervalTime =
  (r <- ActionWaitAny_loop (Update_ env) l 0 intervalTime 0 ;;
   Action_Update (b, ActionWaitAny r.1) r.2).
Proof. reflexivity. Qed.

Lemma Update_ActionWaitAll env b l intervalTime :
  Update_ env b (ActionWaitAll l) intervalTime =
  (r <- ActionWaitAll_loop (Update_ env) l 0 intervalTime 0 ;;
   Action_Update (b, ActionWaitAll r.1) r.2).
Proof. reflexivity. Qed.

Lemma Update_ActionQueue env b l i intervalTime :
  Update_ env b (ActionQueue l i) intervalTime =
  (r <- ActionQueue_loop (Update_ env) (IsPaused b) l i 0 intervalTime ;;
   Action_Update (b, ActionQueue r.1.1 r.1.2) r.2).
Proof. reflexivity. Qed.

(** C5, as stated, fails for a step of 2 or more: with 2.0 the second timer
    is finished in the same call, and only the third one is canceled. *)
Lemma ActionWaitAny_counterexample :
  (1 <= 2)%Q /\
  (q <- Start (new_ActionWaitAny [9] [new_ActionWaitForTime [1] 1;
                                      new_ActionWaitForTime [2] 2;
                                      new_ActionWaitForTime [3] 3]) ;;
   Update env0 q 2) =
  Ok ((mkBase ST.FINISHED [9],
       ActionWaitAny [(mkBase ST.FINISHED [1], ActionWaitForTime 1 1 true);
                      (mkBase ST.FINISHED [2], ActionWaitForTime 2 2 true);
                      (mkBase ST.CANCELED [3], ActionWaitForTime 3 2 false)]), 1%Q)
     [Notify [] 9 EV.STARTED;
      Notify [0] 1 EV.STARTED; Notify [0] 1 EV.FINISHED;
      Notify [1] 2 EV.STARTED; Notify [1] 2 EV.FINISHED;
      Notify [2] 3 EV.STARTED; Notify [] 9 EV.FINISHED;
      Notify [2] 3 EV.CANCELED] /\
  [ST.FINISHED; ST.FINISHED; ST.CANCELED] <> [ST.FINISHED; ST.CANCELED; ST.CANCELED].
Proof.
  split; [discriminate|]. split; [vm_compute; reflexivity | discriminate].
Qed.

(** C5, amended.  For a step of at least 1 and less than 2, a started
    WaitAny of three new timers of 1, 2 and 3 is finished by one update,
    its first child is finished and the other two are canceled. *)
Theorem ActionWaitAny_cancels_losers (env : Env) (obs o1 o2 o3 : list nat) (delta : Q) :
  (1 <= delta)%Q -> (delta < 2)%Q ->
  exists r t,
    (q <- Start (new_ActionWaitAny obs [new_ActionWaitForTime o1 1;
                                        new_ActionWaitForTime o2 2;
                                        new_ActionWaitForTime o3 3]) ;;
     Update env q delta) = Ok r t /\
    status r.1 = ST.FINISHED /\
    map status (children r.1.2) = [ST.FINISHED; ST.CANCELED; ST.CANCELED].
Proof.
  intros H1 H2.
  unfold new_ActionWaitAny, new_ActionWaitForTime, new_Action, Update, Start.
  cbn [Action_Start fst snd _status ST.eqb set_status _OnEventFuncs].
  unfold _OnEvent, emit. cbn [bind ret fst snd].
  rewrite Update_ActionWaitAny.
  cbn [ActionWaitAny_loop IsInit IsRunning fst snd _status ST.eqb Action_Start
       set_status _OnEventFuncs].
  unfold _OnEvent, emit.
  cbn [bind ret fst snd _status ST.eqb IsRunning set_status _OnEventFuncs].
  unfold set_status. cbn [_OnEventFuncs].
  rewrite (timer_Update_reaches env (mkBase ST.RUNNING o1) 1 0 false delta eq_refl)
    by (rewrite Qplus_0_l; exact H1).
  rewrite (timer_Update_short env (mkBase ST.RUNNING o2) 2 0 false delta eq_refl)
    by (rewrite Qplus_0_l; exact H2).
  rewrite (timer_Update_short env (mkBase ST.RUNNING o3) 3 0 false delta eq_refl)
    by (rewrite Qplus_0_l; lra).
  cbn -[gtb Qminus Qplus].
  eexists _, _. split; [reflexivity|]. split; reflexivity.
Qed.

Lemma ActionWaitAny_cancels_losers_witness :
  exists r t,
    (q <- Start (new_ActionWaitAny [9] [new_ActionWaitForTime [1] 1;
                                        new_ActionWaitForTime [2] 2;
                                        new_ActionWaitForTime [3] 3]) ;;
     Update env0 q (3 # 2)) = Ok r t /\
    status r.1 = ST.FINISHED /\
    map status (children r.1.2) = [ST.FINISHED; ST.CANCELED; ST.CANCELED].
Proof.
  apply (ActionWaitAny_cancels_losers env0 [9] [1] [2] [3] (3 # 2)); [discriminate | reflexivity].
Defined.

(** ** WaitAll *)

Lemma Qmin_ltb (m x : Q) : Qmin m x = if ltb x m then x else m.
Proof.
  unfold Qmin, GenericMinMax.gmin, ltb. rewrite <- (Qcompare_antisym x m).
  destruct (x ?= m)%Q; reflexivity.
Qed.

Lemma ActionWaitAll_round_leftover env b d intervalTime m r t :
  (b1 <- (if IsInit b then Action_Start b else ret b) ;;
   if IsRunning b1 then
     u <- Update_ env b1 d intervalTime ;;
     ret (u.1, if ltb u.2 m then u.2 else m)
   else ret ((b1, d), m)) = Ok r t ->
  match advanced_leftover env intervalTime (b, d) with
  | Some x => r.2 = Qmin m x
  | None => r.2 = m
  end.
Proof.
  unfold advanced_leftover, Start, Update. simpl. intros H.
  destruct (IsInit b).
  - destruct (Action_Start_Ok b) as (b1 & t1 & Hb). rewrite Hb in *. simpl in *.
    destruct (IsRunning b1).
    + destruct (Update_ env b1 d intervalTime) as [u tu|]; unfold ret in *; simpl in *; exec_inv.
      simpl. symmetry. apply Qmin_ltb.
    + unfold ret in *; simpl in *. exec_inv. reflexivity.
  - simpl in *. destruct (IsRunning b).
    + destruct (Update_ env b d intervalTime) as [u tu|]; unfold ret in *; simpl in *; exec_inv.
      simpl. symmetry. apply Qmin_ltb.
    + unfold ret in *; simpl in *. exec_inv. reflexivity.
Qed.

Lemma ActionWaitAll_loop_min env l pos intervalTime m r t :
  ActionWaitAll_loop (Update_ env) l pos intervalTime m = Ok r t ->
  r.2 = fold_left Qmin (omap (advanced_leftover env intervalTime) l) m.
Proof.
  revert pos m r t. induction l as [|[b d] l IH]; intros pos m r t H; simpl in H.
  - exec_inv. reflexivity.
  - apply bind_Ok in H. destruct H as (r0 & t1 & t2 & E1 & E2 & ->).
    apply in_child_Ok in E1. destruct E1 as (t0 & Hr & ->).
    apply ActionWaitAll_round_leftover in Hr.
    exec_inv. cbn [snd]. erewrite IH by eassumption.
    cbn [omap list_omap]. destruct (advanced_leftover env intervalTime (b, d)); simpl;
      by rewrite Hr.
Qed.

Lemma no_cancel_nil : no_cancel [].
Proof. intros p f H. inversion H. Qed.

Lemma no_cancel_app t1 t2 : no_cancel t1 -> no_cancel t2 -> no_cancel (t1 ++ t2).
Proof. intros H1 H2 p f [H|H]%elem_of_app; [by eapply H1 | by eapply H2]. Qed.

Lemma no_cancel_relocate i t : no_cancel t -> no_cancel (map (relocate i) t).
Proof.
  intros H p f (c & Hc & Hin)%list_elem_of_fmap.
  destruct c as [p' f' e'|f']; simpl in Hc; [|discriminate].
  injection Hc as Hp Hf He. subst. by eapply H.
Qed.

Lemma no_cancel_notifications p obs e : e <> EV.CANCELED -> no_cancel (notifications p obs e).
Proof.
  intros He p' f' (f & Hc & _)%list_elem_of_fmap. injection Hc as Hp Hf Hc. congruence.
Qed.

Lemma IsDone_ActionWaitAll l :
  IsDone (ActionWaitAll l) = true <-> Forall (fun c => status c = ST.FINISHED) l.
Proof.
  simpl. induction l as [|c l IH]; simpl.
  - split; [constructor | reflexivity].
  - rewrite andb_true_iff, IH, IsFinished_true, Forall_cons. reflexivity.
Qed.

(** ** Arithmetic in binary64 *)

Lemma binary64_sub_diag x : binary64.finite x = true -> binary64.sub x x = binary64.zero.
Proof.
  destruct x as [s|s| |s m e]; try discriminate; intros _.
  - by destruct s.
  - unfold binary64.sub, SFsub. rewrite Z.min_id. unfold shl_align. rewrite Z.sub_diag.
    cbn [fst]. rewrite ?Z.sub_diag. reflexivity.
Qed.

(** *** Comparison against the rationals *)

Lemma digits2_pos_bounds m :
  (2 ^ Zpos (digits2_pos m) <= 2 * Zpos m < 2 * 2 ^ Zpos (digits2_pos m))%Z.
Proof.
  induction m as [m IH|m IH|]; cbn [digits2_pos].
  - rewrite Pos2Z.inj_succ, Z.pow_succ_r by lia. lia.
  - rewrite Pos2Z.inj_succ, Z.pow_succ_r by lia. lia.
  - change (2 ^ 1)%Z with 2%Z. lia.
Qed.

(** The mantissa of a valid number has at most 53 digits, and exactly 53 above the
    smallest exponent. *)
Lemma valid_finite s m e :
  binary64.valid (S754_finite s m e) = true ->
  (-1074 <= e)%Z /\ (Zpos m < 2 ^ 53)%Z /\ (-1074 < e -> 2 ^ 52 <= Zpos m)%Z.
Proof.
  unfold binary64.valid, valid_binary, bounded, canonical_mantissa, fexp, emin.
  intros H. apply andb_true_iff in H. destruct H as [H _]. apply Z.eqb_eq in H.
  change (3 - binary64.emax - binary64.prec)%Z with (-1074)%Z in H.
  change binary64.prec with 53%Z in H.
  pose proof (digits2_pos_bounds m) as [Hlo Hhi].
  assert (Hd : (Zpos (digits2_pos m) <= 53)%Z) by lia.
  split; [lia|]. split.
  - assert ((2 ^ Zpos (digits2_pos m) <= 2 ^ 53)%Z) by (apply Z.pow_le_mono_r; lia). lia.
  - intros He. assert (Hd53 : Zpos (digits2_pos m) = 53%Z) by lia.
    rewrite Hd53 in Hlo. change (2 ^ 53)%Z with (2 * 2 ^ 52)%Z in Hlo. lia.
Qed.

Lemma value_units x :
  binary64.valid x = true -> (binary64.value x == inject_Z (binary64.units x) * 2 ^ (-1074))%Q.
Proof.
  destruct x as [s|s| |s m e]; intros Hv; cbn [binary64.value binary64.units];
    try (by rewrite Qmult_0_l).
  apply valid_finite in Hv. destruct Hv as (He & _ & _).
  assert (Hp : (2 ^ e == inject_Z (2 ^ (e + 1074)) * 2 ^ (-1074))%Q).
  { rewrite Zpower_Qpower by lia. rewrite <- Qpower_plus by discriminate.
    replace (e + 1074 + -1074)%Z with e by lia. reflexivity. }
  rewrite Hp. destruct s; cbn [cond_Zopp].
  - rewrite <- Z.mul_opp_l, inject_Z_mult. change (Z.neg m) with (- Z.pos m)%Z. ring.
  - rewrite inject_Z_mult. ring.
Qed.

Lemma Qcompare_units a b :
  (inject_Z a * 2 ^ (-1074) ?= inject_Z b * 2 ^ (-1074))%Q = (a ?= b)%Z.
Proof.
  assert (Hp : (0 < 2 ^ (-1074))%Q) by (apply Qpower_0_lt; reflexivity).
  destruct (Z.compare_spec a b) as [->|Hlt|Hgt].
  - apply Qeq_alt. reflexivity.
  - apply Qlt_alt. apply Qmult_lt_r; [exact Hp|]. by rewrite <- Zlt_Qlt.
  - apply Qgt_alt. apply Qmult_lt_r; [exact Hp|]. by rewrite <- Zlt_Qlt.
Qed.

Lemma units_compare m1 e1 m2 e2 :
  binary64.valid (S754_finite false m1 e1) = true ->
  binary64.valid (S754_finite false m2 e2) = true ->
  (Zpos m1 * 2 ^ (e1 + 1074) ?= Zpos m2 * 2 ^ (e2 + 1074))%Z =
  match (e1 ?= e2)%Z with
  | Lt => Lt
  | Gt => Gt
  | Eq => Pos.compare_cont Eq m1 m2
  end.
Proof.
  intros H1 H2. apply valid_finite in H1, H2.
  destruct H1 as (He1 & Hm1 & Hn1), H2 as (He2 & Hm2 & Hn2).
  assert (Hshift : forall m e m' e', (-1074 <= e)%Z -> (e < e')%Z ->
            (Zpos m < 2 ^ 53)%Z -> (2 ^ 52 <= Zpos m')%Z ->
            (Zpos m * 2 ^ (e + 1074) < Zpos m' * 2 ^ (e' + 1074))%Z).
  { intros m e m' e' He Hlt Hm Hm'.
    replace (e' + 1074)%Z with ((e + 1074) + (e' - e))%Z by lia.
    rewrite (Z.pow_add_r 2 (e + 1074) (e' - e)) by lia.
    assert (HP : (0 < 2 ^ (e + 1074))%Z) by (apply Z.pow_pos_nonneg; lia).
    assert (HK : (2 ^ 1 <= 2 ^ (e' - e))%Z) by (apply Z.pow_le_mono_r; lia).
    change (2 ^ 1)%Z with 2%Z in HK. change (2 ^ 53)%Z with (2 * 2 ^ 52)%Z in Hm.
    revert Hm Hm' HP HK. generalize (2 ^ 52)%Z (2 ^ (e + 1074))%Z (2 ^ (e' - e))%Z.
    intros H P K Hm Hm' HP HK.
    apply Z.lt_le_trans with (2 * H * P)%Z; [apply Z.mul_lt_mono_pos_r; lia|].
    rewrite Z.mul_assoc, (Z.mul_comm (Z.pos m' * P) K), Z.mul_assoc.
    apply Z.mul_le_mono_nonneg_r; [lia|].
    assert (0 <= (K - 2) * Z.pos m')%Z by (apply Z.mul_nonneg_nonneg; lia). lia. }
  destruct (Z.compare_spec e1 e2) as [->|Hlt|Hgt].
  - change (Pos.compare_cont Eq m1 m2) with (Z.pos m1 ?= Z.pos m2)%Z.
    symmetry. apply Zmult_compare_compat_r. apply Z.lt_gt, Z.pow_pos_nonneg; lia.
  - apply Z.compare_lt_iff. apply Hshift; try lia.
  - apply Z.compare_gt_iff. apply Hshift; try lia.
Qed.

Lemma pow_units_pos s m e :
  binary64.valid (S754_finite s m e) = true -> (0 < 2 ^ (e + 1074))%Z.
Proof. intros H. apply valid_finite in H. apply Z.pow_pos_nonneg; lia. Qed.

(** On valid finite numbers the comparison is the order of the values. *)
Lemma compare_units x y :
  binary64.finite x = true -> binary64.finite y = true ->
  binary64.valid x = true -> binary64.valid y = true ->
  SFcompare x y = Some (binary64.units x ?= binary64.units y)%Z.
Proof.
  destruct x as [s1|s1| |s1 m1 e1], y as [s2|s2| |s2 m2 e2]; try discriminate;
    intros _ _ Hx Hy; cbn [SFcompare binary64.units].
  - reflexivity.
  - pose proof (pow_units_pos _ _ _ Hy) as H2.
    f_equal. destruct s2; cbn [cond_Zopp]; symmetry.
    + apply Z.compare_gt_iff. lia.
    + apply Z.compare_lt_iff. lia.
  - pose proof (pow_units_pos _ _ _ Hx) as H1.
    f_equal. destruct s1; cbn [cond_Zopp]; symmetry.
    + apply Z.compare_lt_iff. lia.
    + apply Z.compare_gt_iff. lia.
  - pose proof (pow_units_pos _ _ _ Hx) as H1. pose proof (pow_units_pos _ _ _ Hy) as H2.
    f_equal. destruct s1, s2; cbn [cond_Zopp].
    + rewrite Z.compare_opp, (units_compare m2 e2 m1 e1 Hy Hx).
      rewrite (Z.compare_antisym e1 e2), (ZC4 m2 m1).
      destruct (e1 ?= e2)%Z; reflexivity.
    + symmetry. apply Z.compare_lt_iff. lia.
    + symmetry. apply Z.compare_gt_iff. lia.
    + symmetry. apply units_compare; assumption.
Qed.

(** On finite numbers [>=] is the order of the rationals. *)
Lemma geb_exact x y qx qy :
  binary64.exact x qx -> binary64.exact y qy ->
  binary64.geb x y = true <-> (qy <= qx)%Q.
Proof.
  intros (Hfx & Hvx & Hx) (Hfy & Hvy & Hy). unfold binary64.geb.
  rewrite (compare_units x y Hfx Hfy Hvx Hvy).
  rewrite <- Hx, <- Hy, (value_units x Hvx), (value_units y Hvy).
  rewrite Qle_alt, Qcompare_units.
  rewrite (Z.compare_antisym (binary64.units x) (binary64.units y)).
  destruct (binary64.units x ?= binary64.units y)%Z; cbn; split; congruence.
Qed.

Lemma geb_exact_below (ss : list double) (qs : list Q) (y : double) (qy : Q) :
  binary64.exact y qy ->
  Forall2 binary64.exact ss qs ->
  Forall (fun q => (q < qy)%Q) qs ->
  Forall (fun s => binary64.geb s y = false) ss.
Proof.
  intros Hy Hexact. induction Hexact as [|s q ss qs Hs _ IH]; intros Hbelow; [constructor|].
  apply Forall_cons in Hbelow. destruct Hbelow as [Hq Hqs].
  constructor; [|by apply IH].
  apply not_true_iff_false. rewrite (geb_exact s y q qy Hs Hy). by apply Qlt_not_le.
Qed.

(** ** The timer in binary64 *)

Lemma Update64_idle (a : Timer) intervalTime :
  IsRunning a.1 = false ->
  ActionWaitForTime_Update64 a intervalTime = Ok (a, binary64.zero) [].
Proof. intros Hr. unfold ActionWaitForTime_Update64. by rewrite Hr. Qed.

Lemma Update64_short b waitTime delayedTime done intervalTime :
  IsRunning b = true ->
  binary64.geb (binary64.add delayedTime intervalTime) waitTime = false ->
  ActionWaitForTime_Update64 (b, mkActionWaitForTime64 waitTime delayedTime done) intervalTime =
  Ok ((b, mkActionWaitForTime64 waitTime (binary64.add delayedTime intervalTime) false),
      binary64.sub intervalTime intervalTime) [].
Proof.
  intros Hr Hg. unfold ActionWaitForTime_Update64. cbn [fst snd _waitTime _delayedTime].
  rewrite Hr, Hg. reflexivity.
Qed.

Lemma Update64_reaches b waitTime delayedTime done intervalTime :
  IsRunning b = true ->
  binary64.geb (binary64.add delayedTime intervalTime) waitTime = true ->
  ActionWaitForTime_Update64 (b, mkActionWaitForTime64 waitTime delayedTime done) intervalTime =
  Ok ((set_status ST.FINISHED b,
       mkActionWaitForTime64 waitTime
         (binary64.add delayedTime (binary64.sub waitTime delayedTime)) true),
      binary64.sub intervalTime (binary64.sub waitTime delayedTime))
     (notifications [] (_OnEventFuncs b) EV.FINISHED).
Proof.
  intros Hr Hg. unfold ActionWaitForTime_Update64. cbn [fst snd _waitTime _delayedTime].
  rewrite Hr, Hg. cbn. by rewrite !app_nil_r.
Qed.

Lemma updates64_idle deltas (a : Timer) :
  IsRunning a.1 = false ->
  exists lefts, updates64 deltas a = Ok (a, lefts) [].
Proof.
  intros Hr. induction deltas as [|d ds [lefts IH]]; cbn [updates64].
  - by exists [].
  - rewrite (Update64_idle a d Hr). cbn [bind fst snd]. rewrite IH. by eexists.
Qed.

(** As long as the accumulated time does not reach the duration, a call
    adds what it is given and hands nothing back. *)
Lemma updates64_short deltas :
  forall b waitTime delayedTime,
    IsRunning b = true ->
    Forall (fun d => binary64.finite d = true) deltas ->
    Forall (fun s => binary64.geb s waitTime = false) (accumulated delayedTime deltas) ->
    updates64 deltas (b, mkActionWaitForTime64 waitTime delayedTime false) =
    Ok ((b, mkActionWaitForTime64 waitTime (fold_left binary64.add deltas delayedTime) false),
        map (fun _ => binary64.zero) deltas) [].
Proof.
  induction deltas as [|d ds IH]; intros b w e Hb Hfin Hacc; [reflexivity|].
  apply Forall_cons in Hfin. destruct Hfin as [Hd Hfin].
  cbn [accumulated] in Hacc. apply Forall_cons in Hacc. destruct Hacc as [Hg Hacc].
  cbn [updates64 fold_left map]. rewrite (Update64_short b w e false d Hb Hg).
  cbn [bind fst snd]. rewrite (IH b w (binary64.add e d) Hb Hfin Hacc).
  cbn [fst snd ret]. by rewrite (binary64_sub_diag d Hd).
Qed.

Lemma updates64_finished deltas :
  forall b waitTime delayedTime done,
    IsRunning b = true ->
    exists r t,
      updates64 deltas (b, mkActionWaitForTime64 waitTime delayedTime done) = Ok r t /\
      (_status r.1.1 = ST.FINISHED <->
       Exists (fun s => binary64.geb s waitTime = true) (accumulated delayedTime deltas)) /\
      (_status r.1.1 = ST.FINISHED \/ _status r.1.1 = ST.RUNNING).
Proof.
  induction deltas as [|d ds IH]; intros b w e dn Hb; cbn [updates64 accumulated].
  - eexists _, _. split; [reflexivity|]. cbn [fst snd].
    apply IsRunning_true in Hb. rewrite Hb. split; [|by right].
    split; [discriminate | intros Hex; inversion Hex].
  - destruct (binary64.geb (binary64.add e d) w) eqn:Hg.
    + rewrite (Update64_reaches b w e dn d Hb Hg). cbn [bind fst snd].
      destruct (updates64_idle ds
                  (set_status ST.FINISHED b,
                   mkActionWaitForTime64 w (binary64.add e (binary64.sub w e)) true) eq_refl)
        as [lefts' E].
      rewrite E. eexists _, _. split; [reflexivity|]. cbn [fst snd set_status _status].
      split; [|by left]. split; [intros _; by left | reflexivity].
    + rewrite (Update64_short b w e dn d Hb Hg). cbn [bind fst snd].
      destruct (IH b w (binary64.add e d) false Hb) as (r & t & E & Hiff & Hst).
      rewrite E. eexists _, _. split; [reflexivity|]. cbn [fst snd].
      split; [|exact Hst]. rewrite Hiff, Exists_cons. split.
      * intros Hex. by right.
      * intros [Hex|Hex]; [congruence | exact Hex].
Qed.

(** ** WaitAll over timers, in binary64 *)

Lemma reaches64_nil (c : Timer) : reaches64 [] c <-> _status c.1 = ST.FINISHED.
Proof.
  unfold reaches64. cbn [accumulated]. split; [|by left].
  intros [H|[_ H]]; [exact H | inversion H].
Qed.

(** One round of the loop of [ActionWaitAll::Update]. *)
Lemma ActionWaitAll_round64 pos (c : Timer) intervalTime deltas m :
  exists c' m' t,
    in_child pos (
      b1 <- (if IsInit c.1 then Action_Start c.1 else ret c.1) ;;
      if IsRunning b1 then
        u <- ActionWaitForTime_Update64 (b1, c.2) intervalTime ;;
        ret (u.1, if binary64.ltb u.2 m then u.2 else m)
      else ret ((b1, c.2), m)) = Ok (c', m') t /\
    (_status c.1 <> ST.CANCELED -> _status c'.1 <> ST.CANCELED) /\
    (reaches64 (intervalTime :: deltas) c <-> reaches64 deltas c') /\
    no_cancel t.
Proof.
  destruct c as [[s obs] [w e dn]].
  assert (Hrun : forall t0,
    no_cancel t0 ->
    exists c' m' t,
      in_child pos (
        match
          (u <- ActionWaitForTime_Update64
                  (mkBase ST.RUNNING obs, mkActionWaitForTime64 w e dn) intervalTime ;;
           ret (u.1, if binary64.ltb u.2 m then u.2 else m))
        with
        | Ok r t' => Ok r (t0 ++ t')
        | Fault => Fault
        end) = Ok (c', m') t /\
      _status c'.1 <> ST.CANCELED /\
      (Exists (fun s => binary64.geb s w = true) (accumulated e (intervalTime :: deltas)) <->
       reaches64 deltas c') /\
      no_cancel t).
  { intros t0 Ht0. cbn [accumulated].
    destruct (binary64.geb (binary64.add e intervalTime) w) eqn:Hg.
    - rewrite (Update64_reaches (mkBase ST.RUNNING obs) w e dn intervalTime eq_refl Hg).
      cbn [bind ret fst snd in_child]. eexists _, _, _. split; [reflexivity|].
      split; [discriminate|]. split.
      + split; [intros _; by left | intros _; by left].
      + rewrite !app_nil_r. apply no_cancel_relocate, no_cancel_app; [assumption|].
        by apply no_cancel_notifications.
    - rewrite (Update64_short (mkBase ST.RUNNING obs) w e dn intervalTime eq_refl Hg).
      cbn [bind ret fst snd in_child]. eexists _, _, _. split; [reflexivity|].
      split; [discriminate|]. split.
      + unfold reaches64. cbn [fst snd _status _waitTime _delayedTime].
        rewrite Exists_cons. split.
        * intros [H|H]; [congruence|]. right. split; [by right | exact H].
        * intros [H|[_ H]]; [discriminate H | by right].
      + rewrite !app_nil_r. by apply no_cancel_relocate. }
  destruct s; cbn [fst snd IsInit IsRunning _status ST.eqb Action_Start set_status
                   _OnEventFuncs _OnEvent emit bind ret].
  - destruct (Hrun (map (fun f => Notify [] f EV.STARTED) obs ++ []))
      as (c' & m' & t & Heq & Hs & Hp & Hn).
    { rewrite app_nil_r. by apply (no_cancel_notifications [] obs EV.STARTED). }
    exists c', m', t. split; [exact Heq|]. split; [auto|]. split; [|exact Hn].
    rewrite <- Hp. unfold reaches64. cbn [fst snd _status _waitTime _delayedTime]. split.
    + intros [H|[_ H]]; [discriminate H | exact H].
    + intros H. right. split; [by left | exact H].
  - destruct (Hrun []) as (c' & m' & t & Heq & Hs & Hp & Hn); [apply no_cancel_nil|].
    exists c', m', t. split; [exact Heq|]. split; [auto|]. split; [|exact Hn].
    rewrite <- Hp. unfold reaches64. cbn [fst snd _status _waitTime _delayedTime]. split.
    + intros [H|[_ H]]; [discriminate H | exact H].
    + intros H. right. split; [by right | exact H].
  - eexists _, _, _. split; [reflexivity|]. split; [auto|]. split; [|apply no_cancel_nil].
    unfold reaches64. cbn [fst snd _status].
    split; intros [H|[[H|H] _]]; discriminate H.
  - eexists _, _, _. split; [reflexivity|]. split; [auto|]. split; [|apply no_cancel_nil].
    unfold reaches64. cbn [fst snd _status]. split; intros _; by left.
  - eexists _, _, _. split; [reflexivity|]. split; [auto|]. split; [|apply no_cancel_nil].
    unfold reaches64. cbn [fst snd _status].
    split; intros [H|[[H|H] _]]; discriminate H.
Qed.

Lemma ActionWaitAll_loop64_timers deltas l :
  forall pos intervalTime m,
  exists l' m' t,
    ActionWaitAll_loop64 l pos intervalTime m = Ok (l', m') t /\
    Forall2 (fun c c' : Timer =>
               (_status c.1 <> ST.CANCELED -> _status c'.1 <> ST.CANCELED) /\
               (reaches64 (intervalTime :: deltas) c <-> reaches64 deltas c')) l l' /\
    no_cancel t.
Proof.
  induction l as [|c l IH]; intros pos intervalTime m.
  - exists [], m, []. split; [reflexivity|]. split; [constructor | apply no_cancel_nil].
  - destruct (ActionWaitAll_round64 pos c intervalTime deltas m)
      as (c' & m1 & t1 & Hround & Hs & Hp & Ht1).
    destruct (IH (S pos) intervalTime m1) as (l' & m' & t2 & Hloop & Hsteps & Ht2).
    exists (c' :: l'), m', (t1 ++ t2 ++ []).
    split; [|split].
    + cbn [ActionWaitAll_loop64]. rewrite Hround. cbn [bind snd fst]. rewrite Hloop.
      reflexivity.
    + by constructor.
    + rewrite app_nil_r. by apply no_cancel_app.
Qed.

Lemma forallb_IsFinished (l : list Timer) :
  forallb (fun c : Timer => IsFinished c.1) l = true <->
  Forall (fun c : Timer => _status c.1 = ST.FINISHED) l.
Proof.
  induction l as [|c l IH]; cbn [forallb].
  - split; [constructor | reflexivity].
  - rewrite andb_true_iff, IH, IsFinished_true, Forall_cons. reflexivity.
Qed.

(** One update of a group. *)
Lemma ActionWaitAll_Update64_timers b l intervalTime deltas :
  exists b' l' left t,
    ActionWaitAll_Update64 (b, l) intervalTime = Ok ((b', l'), left) t /\
    Forall2 (fun c c' : Timer =>
               (_status c.1 <> ST.CANCELED -> _status c'.1 <> ST.CANCELED) /\
               (reaches64 (intervalTime :: deltas) c <-> reaches64 deltas c')) l l' /\
    (_status b' = ST.FINISHED <->
     _status b = ST.FINISHED \/ Forall (fun c : Timer => _status c.1 = ST.FINISHED) l') /\
    (_status b' = _status b \/ _status b' = ST.FINISHED) /\
    no_cancel t.
Proof.
  destruct (ActionWaitAll_loop64_timers deltas l 0 intervalTime binary64.zero)
    as (l' & m' & t & Hloop & Hsteps & Ht).
  unfold ActionWaitAll_Update64. cbn [fst snd]. rewrite Hloop. cbn [bind fst snd].
  destruct (forallb (fun c : Timer => IsFinished c.1) l') eqn:Hall;
    cbn [Action_UpdateStatus _OnEvent emit bind ret].
  - apply forallb_IsFinished in Hall.
    eexists _, _, _, _. split; [reflexivity|]. split; [exact Hsteps|].
    cbn [set_status _status]. split; [|split; [by right|]].
    + split; [intros _; by right | reflexivity].
    + rewrite !app_nil_r. apply no_cancel_app; [exact Ht|].
      by apply (no_cancel_notifications [] (_OnEventFuncs b) EV.FINISHED).
  - eexists _, _, _, _. split; [reflexivity|]. split; [exact Hsteps|].
    split; [|split; [by left|]].
    + split; [by left|]. intros [H|H]; [exact H|].
      apply forallb_IsFinished in H. congruence.
    + rewrite !app_nil_r. exact Ht.
Qed.

(** The updates of a group: each child goes its own way, and the group is
    finished once all of them are. *)
Lemma group_updates64_timers deltas :
  forall b l,
    exists b' l' lefts t,
      group_updates64 deltas (b, l) = Ok ((b', l'), lefts) t /\
      Forall2 (fun c c' : Timer =>
                 (_status c.1 <> ST.CANCELED -> _status c'.1 <> ST.CANCELED) /\
                 (reaches64 deltas c <-> _status c'.1 = ST.FINISHED)) l l' /\
      (_status b' = ST.FINISHED <->
       _status b = ST.FINISHED \/ (deltas <> [] /\ Forall (reaches64 deltas) l)) /\
      (_status b' = _status b \/ _status b' = ST.FINISHED) /\
      no_cancel t.
Proof.
  induction deltas as [|d ds IH]; intros b l.
  - exists b, l, [], []. split; [reflexivity|]. split; [|split; [|split]].
    + apply Forall2_same_length_lookup_2; [reflexivity|].
      intros i c c' Hc Hc'. rewrite Hc in Hc'. injection Hc' as <-.
      split; [auto | apply reaches64_nil].
    + split; [by left|]. intros [H|[H _]]; [exact H | congruence].
    + by left.
    + apply no_cancel_nil.
  - destruct (ActionWaitAll_Update64_timers b l d ds)
      as (b1 & l1 & left1 & t1 & Hupd & Hsteps1 & Hb1 & Hst1 & Ht1).
    destruct (IH b1 l1) as (b' & l' & lefts & t2 & Hrest & Hsteps & Hb' & Hst' & Ht2).
    exists b', l', (left1 :: lefts), (t1 ++ t2 ++ []).
    assert (Hreach : Forall (reaches64 (d :: ds)) l <-> Forall (reaches64 ds) l1).
    { clear -Hsteps1. induction Hsteps1 as [|c c1 l l1 [_ Hc] _ IHl].
      - split; constructor.
      - rewrite !Forall_cons, Hc, IHl. reflexivity. }
    assert (Hfin : Forall (fun c : Timer => _status c.1 = ST.FINISHED) l1 ->
                   Forall (reaches64 ds) l1).
    { intros H. eapply Forall_impl; [exact H|]. intros c Hc. by left. }
    split; [|split; [|split; [|split]]].
    + cbn [group_updates64]. rewrite Hupd. cbn [bind fst snd]. rewrite Hrest. reflexivity.
    + clear -Hsteps1 Hsteps. revert l' Hsteps.
      induction Hsteps1 as [|c c1 l l1 [Hs1 Hc1] _ IHl]; intros l' Hsteps;
        inversion Hsteps as [|? c' ? l2 [Hs2 Hc2] Hrest]; subst; constructor.
      * split; [auto | by rewrite Hc1].
      * by apply IHl.
    + rewrite Hb', Hb1, Hreach. split.
      * intros [[H|H]|[Hne H]]; [by left | right | right]; (split; [discriminate|]); auto.
      * intros [H|[_ H]]; [by do 2 left|].
        destruct ds as [|d' ds'].
        -- left. right. eapply Forall_impl; [exact H|]. intros c Hc. by apply reaches64_nil.
        -- right. split; [discriminate | exact H].
    + destruct Hst' as [Hst'|Hst']; [|by right].
      rewrite Hst'. exact Hst1.
    + rewrite app_nil_r. by apply no_cancel_app.
Qed.

(** C6, as stated, fails on the program's [double]s.  Five steps of 0.6 are
    not negative and sum to less than 3, yet the fifth one finishes the
    third timer, and with it the group: 2.4 + 0.6 is rounded to 3.  The
    call even returns a negative leftover. *)
Lemma ActionWaitAll_completion_counterexample :
  Forall (fun d => (0 <= binary64.value d)%Q) (repeat (binary64.decimal 6 1) 5) /\
  (Qsum (map binary64.value (repeat (binary64.decimal 6 1) 5)) < 3)%Q /\
  exists l t,
    (q <- Start64 (new_TimerGroup [9] [new_Timer [1] (binary64.of_Z 1);
                                       new_Timer [2] (binary64.of_Z 2);
                                       new_Timer [3] (binary64.of_Z 3)]) ;;
     group_updates64 (repeat (binary64.decimal 6 1) 5) q) =
    Ok ((mkBase ST.FINISHED [9], l),
        [binary64.zero; binary64.zero; binary64.zero; binary64.zero;
         S754_finite true 4503599627370496 (-105)]) t /\
    map (fun c : Timer => _status c.1) l = [ST.FINISHED; ST.FINISHED; ST.FINISHED] /\
    (binary64.value (S754_finite true 4503599627370496 (-105)) < 0)%Q.
Proof.
  split; [repeat constructor; discriminate|]. split; [reflexivity|].
  eexists _, _. split; [vm_compute; reflexivity|]. split; reflexivity.
Qed.

(** C6, amended.  The completion predicate of a WaitAll holds exactly when
    every child is finished; an [Update] returns the minimum, seeded at 0,
    of the leftovers of the children it advanced; and a started WaitAll of
    three new timers of 1, 2 and 3 is, after any updates, finished exactly
    when each timer has reached its duration at one of them, in the time
    accumulated in [double], the steps added one by one.  It is running
    otherwise, so as long as that time has not reached 3, which is as long
    as the cumulative delta is below 3 when no addition has rounded; and at
    no time is a child canceled or an observer told of a cancellation. *)
Theorem ActionWaitAll_completion (env : Env) :
  (forall l, IsDone (ActionWaitAll l) = true <-> Forall (fun c => status c = ST.FINISHED) l) /\
  (forall b l intervalTime a' left t,
     Update env (b, ActionWaitAll l) intervalTime = Ok (a', left) t ->
     left = min_seeded_at_0 (omap (advanced_leftover env intervalTime) l)) /\
  (forall obs o1 o2 o3 deltas,
     exists r t,
       (q <- Start64 (new_TimerGroup obs [new_Timer o1 (binary64.of_Z 1);
                                          new_Timer o2 (binary64.of_Z 2);
                                          new_Timer o3 (binary64.of_Z 3)]) ;;
        group_updates64 deltas q) = Ok r t /\
       (_status r.1.1 = ST.FINISHED <->
        Forall (fun waitTime =>
                  Exists (fun s => binary64.geb s waitTime = true)
                         (accumulated binary64.zero deltas))
               [binary64.of_Z 1; binary64.of_Z 2; binary64.of_Z 3]) /\
       (Forall (fun s => binary64.geb s (binary64.of_Z 3) = false)
               (accumulated binary64.zero deltas) ->
        _status r.1.1 = ST.RUNNING) /\
       (Forall2 binary64.exact (accumulated binary64.zero deltas)
                (cumulative 0 (map binary64.value deltas)) ->
        Forall (fun q => (q < 3)%Q) (cumulative 0 (map binary64.value deltas)) ->
        _status r.1.1 = ST.RUNNING) /\
       Forall (fun c : Timer => _status c.1 <> ST.CANCELED) r.1.2 /\
       no_cancel t).
Proof.
  split; [exact IsDone_ActionWaitAll|]. split.
  - intros b l intervalTime a' left t H. unfold Update in H. cbn [fst snd] in H.
    rewrite Update_ActionWaitAll in H.
    apply bind_Ok in H. destruct H as (r & t1 & t2 & Hloop & Hupd & ->).
    apply ActionWaitAll_loop_min in Hloop.
    unfold Action_Update in Hupd. exec_inv. exact Hloop.
  - intros obs o1 o2 o3 deltas.
    destruct (group_updates64_timers deltas (mkBase ST.RUNNING obs)
                [new_Timer o1 (binary64.of_Z 1); new_Timer o2 (binary64.of_Z 2);
                 new_Timer o3 (binary64.of_Z 3)])
      as (b' & l' & lefts & t & Hupd & Hsteps & Hb' & Hst & Ht).
    assert (Hnew : forall o w, reaches64 deltas (new_Timer o w) <->
                     Exists (fun s => binary64.geb s w = true)
                            (accumulated binary64.zero deltas)).
    { intros o w. unfold reaches64, new_Timer, new_Action.
      cbn [fst snd _status _waitTime _delayedTime]. split.
      - intros [H|[_ H]]; [discriminate H | exact H].
      - intros H. right. split; [by left | exact H]. }
    assert (Hiff : _status b' = ST.FINISHED <->
                   Forall (fun waitTime =>
                             Exists (fun s => binary64.geb s waitTime = true)
                                    (accumulated binary64.zero deltas))
                          [binary64.of_Z 1; binary64.of_Z 2; binary64.of_Z 3]).
    { rewrite Hb'. cbn [_status]. rewrite !Forall_cons, !Hnew. split.
      - intros [H|[_ (H1 & H2 & H3 & _)]]; [discriminate H|]. repeat split; try assumption.
        constructor.
      - intros (H1 & H2 & H3 & _). right. split.
        + intros ->. inversion H1.
        + repeat split; try assumption. constructor. }
    assert (Hrunning : Forall (fun s => binary64.geb s (binary64.of_Z 3) = false)
                              (accumulated binary64.zero deltas) ->
                       _status b' = ST.RUNNING).
    { intros Hacc. destruct Hst as [Hst|Hst]; [exact Hst|].
      apply Hiff in Hst. rewrite !Forall_cons in Hst. destruct Hst as (_ & _ & H3 & _).
      apply Exists_exists in H3. destruct H3 as (s & Hin & Hs).
      rewrite Forall_forall in Hacc. specialize (Hacc s Hin). congruence. }
    eexists _, _. split; [|split; [|split; [|split; [|split]]]].
    + unfold Start64, new_TimerGroup, new_Action.
      cbn [fst snd Action_Start _status ST.eqb].
      unfold set_status, _OnEvent, emit. cbn [bind ret _OnEventFuncs].
      rewrite Hupd. reflexivity.
    + exact Hiff.
    + exact Hrunning.
    + cbn [fst]. intros Hexact Hbelow. apply Hrunning.
      apply (geb_exact_below _ _ (binary64.of_Z 3) 3 (conj eq_refl (conj eq_refl eq_refl))
               Hexact Hbelow).
    + cbn [fst snd]. clear -Hsteps.
      assert (Hlive : Forall (fun c : Timer => _status c.1 <> ST.CANCELED)
                [new_Timer o1 (binary64.of_Z 1); new_Timer o2 (binary64.of_Z 2);
                 new_Timer o3 (binary64.of_Z 3)]) by (repeat constructor; discriminate).
      induction Hsteps as [|c c' l l' [Hc _] _ IH]; [constructor|].
      apply Forall_cons in Hlive. destruct Hlive as [Hc1 Hl1].
      constructor; [by apply Hc | by apply IH].
    + rewrite !app_nil_r. apply no_cancel_app; [|exact Ht].
      by apply (no_cancel_notifications [] obs EV.STARTED).
Qed.

Lemma ActionWaitAll_completion_witness :
  exists r t,
    (q <- Start64 (new_TimerGroup [9] [new_Timer [1] (binary64.of_Z 1);
                                       new_Timer [2] (binary64.of_Z 2);
                                       new_Timer [3] (binary64.of_Z 3)]) ;;
     group_updates64 [binary64.of_Z 1; binary64.decimal 5 1; binary64.of_Z 1] q) = Ok r t /\
    _status r.1.1 = ST.RUNNING /\
    Forall (fun c : Timer => _status c.1 <> ST.CANCELED) r.1.2 /\
    no_cancel t.
Proof.
  destruct (proj2 (proj2 (ActionWaitAll_completion env0)) [9] [1] [2] [3]
              [binary64.of_Z 1; binary64.decimal 5 1; binary64.of_Z 1])
    as (r & t & Hrun & _ & _ & Hrunning & Hlive & Ht).
  exists r, t. split; [exact Hrun|]. split; [|split; [exact Hlive | exact Ht]].
  apply Hrunning.
  - repeat constructor; reflexivity.
  - repeat constructor.
Defined.

(** ** Time conservation of the timer *)

Lemma consumed_all deltas :
  (consumed (map binary64.value deltas)
            (map binary64.value (map (fun _ => binary64.zero) deltas)) ==
   Qsum (map binary64.value deltas))%Q.
Proof.
  unfold consumed, Qsum. induction deltas as [|d ds IH]; cbn [map zip_with foldr].
  - reflexivity.
  - rewrite IH. change (binary64.value binary64.zero) with 0%Q. ring.
Qed.

(** C7, as stated, fails on the program's [double]s.  A timer of 0.3 is
    given 0.1 and then 0.7: the second call finishes it and
    [delta - (D - elapsed)] is not negative, but the call returns 0.5, which
    is not that number, and the time consumed over the two calls is not
    0.3. *)
Lemma timer_time_conservation_counterexample :
  exists a1 a2 left t1 t2,
    updates64 [binary64.decimal 1 1]
      (mkBase ST.RUNNING [4], mkActionWaitForTime64 (binary64.decimal 3 1) binary64.zero false) =
      Ok (a1, [binary64.zero]) t1 /\
    _status a1.1 = ST.RUNNING /\
    ActionWaitForTime_Update64 a1 (binary64.decimal 7 1) = Ok (a2, left) t2 /\
    _status a2.1 = ST.FINISHED /\
    left = binary64.decimal 5 1 /\
    (0 <= binary64.value (binary64.decimal 7 1) -
          (binary64.value (binary64.decimal 3 1) - binary64.value (_delayedTime a1.2)))%Q /\
    ~ (binary64.value left ==
       binary64.value (binary64.decimal 7 1) -
       (binary64.value (binary64.decimal 3 1) - binary64.value (_delayedTime a1.2)))%Q /\
    ~ (consumed (map binary64.value [binary64.decimal 1 1]) (map binary64.value [binary64.zero]) +
       (binary64.value (binary64.decimal 7 1) - binary64.value left) ==
       binary64.value (binary64.decimal 3 1))%Q.
Proof.
  eexists _, _, _, _, _.
  split; [vm_compute; reflexivity|]. split; [reflexivity|].
  split; [vm_compute; reflexivity|]. split; [reflexivity|].
  split; [vm_compute; reflexivity|].
  split; [vm_compute; discriminate|].
  split; intros H; vm_compute in H; discriminate H.
Qed.

(** C7, amended.  A new timer of duration [D] is running and is updated
    with the finite steps [deltas], none of which brings the accumulated
    time to [D], and then with [delta], which does; [elapsed] is the time
    accumulated before that last call, the steps added one by one in
    [double].  Every earlier call has returned 0.  The last call finishes
    the timer, returns [delta - (D - elapsed)] and leaves
    [elapsed + (D - elapsed)] as accumulated time, each operation rounded
    to [double].  When none of these operations has rounded, the leftover
    is the rational [delta - (D - elapsed)], it is not negative, and the
    time consumed over all the calls is [D]. *)
Theorem timer_time_conservation (b : Base) (D : double) (deltas : list double)
    (delta : double) :
  let elapsed := fold_left binary64.add deltas binary64.zero in
  let remaining := binary64.sub D elapsed in
  let left := binary64.sub delta remaining in
  IsRunning b = true ->
  Forall (fun d => binary64.finite d = true) deltas ->
  Forall (fun s => binary64.geb s D = false) (accumulated binary64.zero deltas) ->
  binary64.geb (binary64.add elapsed delta) D = true ->
  updates64 deltas (b, mkActionWaitForTime64 D binary64.zero false) =
    Ok ((b, mkActionWaitForTime64 D elapsed false), map (fun _ => binary64.zero) deltas) [] /\
  ActionWaitForTime_Update64 (b, mkActionWaitForTime64 D elapsed false) delta =
    Ok ((set_status ST.FINISHED b,
         mkActionWaitForTime64 D (binary64.add elapsed remaining) true), left)
       (notifications [] (_OnEventFuncs b) EV.FINISHED) /\
  (binary64.exact D (binary64.value D) ->
   binary64.exact elapsed (Qsum (map binary64.value deltas)) ->
   binary64.exact (binary64.add elapsed delta) (binary64.value elapsed + binary64.value delta) ->
   binary64.exact remaining (binary64.value D - binary64.value elapsed) ->
   binary64.exact left (binary64.value delta - binary64.value remaining) ->
   (binary64.value left ==
    binary64.value delta - (binary64.value D - binary64.value elapsed))%Q /\
   (0 <= binary64.value left)%Q /\
   (consumed (map binary64.value deltas)
             (map binary64.value (map (fun _ => binary64.zero) deltas)) +
    (binary64.value delta - binary64.value left) == binary64.value D)%Q).
Proof.
  intros elapsed remaining left Hb Hfin Hacc Hg.
  split; [by apply updates64_short|]. split; [by apply Update64_reaches|].
  intros HD He Ha Hr Hl.
  apply (geb_exact _ _ _ _ Ha HD) in Hg.
  destruct He as (_ & _ & He), Hr as (_ & _ & Hr), Hl as (_ & _ & Hl).
  rewrite consumed_all, Hl, Hr, <- He. split; [reflexivity|]. split; lra.
Qed.

Lemma timer_time_conservation_witness :
  updates64 [binary64.decimal 5 1; binary64.of_Z 1]
    (mkBase ST.RUNNING [4], mkActionWaitForTime64 (binary64.of_Z 2) binary64.zero false) =
    Ok ((mkBase ST.RUNNING [4],
         mkActionWaitForTime64 (binary64.of_Z 2) (binary64.decimal 15 1) false),
        [binary64.zero; binary64.zero]) [] /\
  ActionWaitForTime_Update64
    (mkBase ST.RUNNING [4],
     mkActionWaitForTime64 (binary64.of_Z 2) (binary64.decimal 15 1) false)
    (binary64.of_Z 1) =
    Ok ((mkBase ST.FINISHED [4],
         mkActionWaitForTime64 (binary64.of_Z 2) (binary64.of_Z 2) true),
        binary64.decimal 5 1)
       [Notify [] 4 EV.FINISHED] /\
  (binary64.value (binary64.decimal 5 1) ==
   binary64.value (binary64.of_Z 1) -
   (binary64.value (binary64.of_Z 2) - binary64.value (binary64.decimal 15 1)))%Q /\
  (0 <= binary64.value (binary64.decimal 5 1))%Q /\
  (consumed (map binary64.value [binary64.decimal 5 1; binary64.of_Z 1])
            (map binary64.value [binary64.zero; binary64.zero]) +
   (binary64.value (binary64.of_Z 1) - binary64.value (binary64.decimal 5 1)) ==
   binary64.value (binary64.of_Z 2))%Q.
Proof.
  destruct (timer_time_conservation (mkBase ST.RUNNING [4]) (binary64.of_Z 2)
              [binary64.decimal 5 1; binary64.of_Z 1] (binary64.of_Z 1))
    as (H1 & H2 & H3).
  - reflexivity.
  - repeat constructor.
  - repeat constructor.
  - reflexivity.
  - split; [exact H1|]. split; [exact H2|].
    apply H3; (split; [reflexivity|]; split; [reflexivity|]); vm_compute; reflexivity.
Defined.

(** ** The function action *)

Lemma invocations_app t1 t2 : invocations (t1 ++ t2) = invocations t1 + invocations t2.
Proof. unfold invocations. by rewrite List.filter_app, length_app. Qed.

Lemma invocations_notifications p obs e : invocations (notifications p obs e) = 0.
Proof. induction obs as [|f obs IH]; [reflexivity | exact IH]. Qed.

Lemma function_Update_running env b f done intervalTime :
  IsRunning b = true ->
  Update env (b, ActionFunction f done) intervalTime =
  Ok ((set_status ST.FINISHED b, ActionFunction f true), intervalTime)
     (Invoke f :: notifications [] (_OnEventFuncs b) EV.FINISHED).
Proof.
  intros Hb. unfold Update. cbn [Update_ fst snd]. rewrite Hb. cbn.
  by rewrite !app_nil_r.
Qed.

(** Everything but an [Update] of a running function action leaves the
    callback alone and keeps the members of the derived class. *)
Lemma function_op_quiet b f done op :
  IsRunning b = false \/ (forall e dt, op <> OpUpdate e dt) ->
  exists b' t,
    run_op op (b, ActionFunction f done) = Ok (b', ActionFunction f done) t /\
    invocations t = 0 /\
    (_status b = ST.FINISHED \/ _status b = ST.CANCELED ->
     _status b' = ST.FINISHED \/ _status b' = ST.CANCELED).
Proof.
  intros Hq. destruct b as [s obs]. destruct op.
  - destruct s; eexists _, _; (split; [reflexivity|]); cbn;
      rewrite ?app_nil_r; (split; [apply (invocations_notifications []) || reflexivity | intros [?|?]; (discriminate || (simpl; auto))]).
  - destruct s; eexists _, _; (split; [reflexivity|]); cbn;
      rewrite ?app_nil_r; (split; [apply (invocations_notifications []) || reflexivity | intros [?|?]; (discriminate || (simpl; auto))]).
  - destruct s; eexists _, _; (split; [reflexivity|]); cbn;
      rewrite ?app_nil_r; (split; [apply (invocations_notifications []) || reflexivity | intros [?|?]; (discriminate || (simpl; auto))]).
  - eexists _, _; (split; [reflexivity|]); cbn;
      rewrite ?app_nil_r; (split; [apply (invocations_notifications []) | intros [?|?]; (discriminate || (simpl; auto))]).
  - destruct Hq as [Hq|Hq]; [|by destruct (Hq env intervalTime)].
    exists (mkBase s obs), []. split; [|split; [reflexivity | auto]].
    cbn [run_op]. unfold Update. cbn [Update_ fst snd]. rewrite Hq. reflexivity.
Qed.

Lemma function_ops_after_end ops :
  forall b f done,
    _status b = ST.FINISHED \/ _status b = ST.CANCELED ->
    exists a' t, run_ops ops (b, ActionFunction f done) = Ok a' t /\ invocations t = 0.
Proof.
  induction ops as [|op ops IH]; intros b f done Hb.
  - eexists _, _. split; reflexivity.
  - destruct (function_op_quiet b f done op) as (b' & t & Hop & Ht & Hend).
    { left. unfold IsRunning. destruct Hb as [-> | ->]; reflexivity. }
    destruct (IH b' f done (Hend Hb)) as (a' & t' & Hops & Ht').
    exists a', (t ++ t'). split.
    + cbn [run_ops]. rewrite Hop. cbn [bind]. rewrite Hops. reflexivity.
    + rewrite invocations_app. lia.
Qed.

Lemma function_ops_at_most_once ops :
  forall b f done,
    exists a' t, run_ops ops (b, ActionFunction f done) = Ok a' t /\ invocations t <= 1.
Proof.
  induction ops as [|op ops IH]; intros b f done.
  - eexists _, _. split; [reflexivity|]. unfold invocations. simpl. lia.
  - assert (Hcases : (IsRunning b = false \/ (forall e dt, op <> OpUpdate e dt)) \/
                     (IsRunning b = true /\ exists e dt, op = OpUpdate e dt)).
    { destruct (IsRunning b); [|by left; left].
      destruct op; try (left; right; discriminate). right. eauto. }
    destruct Hcases as [Hq|(Hb & e & dt & ->)].
    + destruct (function_op_quiet b f done op Hq) as (b' & t & Hop & Ht & _).
      destruct (IH b' f done) as (a' & t' & Hops & Ht').
      exists a', (t ++ t'). split.
      * cbn [run_ops]. rewrite Hop. cbn [bind]. rewrite Hops. reflexivity.
      * rewrite invocations_app. lia.
    + destruct (function_ops_after_end ops (set_status ST.FINISHED b) f true)
        as (a' & t' & Hops & Ht'); [by left|].
      eexists a', _. split.
      * cbn [run_ops run_op]. rewrite (function_Update_running e b f done dt Hb).
        cbn [bind ret fst]. rewrite Hops. reflexivity.
      * rewrite !invocations_app. cbn [invocations List.filter is_Invoke length app].
        change (length (List.filter is_Invoke ?t)) with (invocations t).
        rewrite invocations_notifications, Ht'. simpl. lia.
Qed.

(** C8. The callback of a function action is called by the [Update] made
    while the action is running, and by nothing else: that call calls it
    once, sets [_done], finishes the action and returns the whole
    [intervalTime]; no operation before it and no operation after it calls
    the callback, so no sequence of operations calls it twice. *)
Theorem ActionFunction_called_once (env : Env) (f : nat) (done : bool) :
  (forall b op,
     IsRunning b = false \/ (forall e dt, op <> OpUpdate e dt) ->
     exists b' t,
       run_op op (b, ActionFunction f done) = Ok (b', ActionFunction f done) t /\
       invocations t = 0) /\
  (forall b intervalTime,
     IsRunning b = true ->
     Update env (b, ActionFunction f done) intervalTime =
       Ok ((set_status ST.FINISHED b, ActionFunction f true), intervalTime)
          (Invoke f :: notifications [] (_OnEventFuncs b) EV.FINISHED) /\
     invocations (Invoke f :: notifications [] (_OnEventFuncs b) EV.FINISHED) = 1 /\
     IsDone (ActionFunction f true) = true /\
     forall ops, exists a' t',
       run_ops ops (set_status ST.FINISHED b, ActionFunction f true) = Ok a' t' /\
       invocations t' = 0) /\
  (forall b ops, exists a' t,
     run_ops ops (b, ActionFunction f done) = Ok a' t /\ invocations t <= 1).
Proof.
  split; [|split].
  - intros b op Hq. destruct (function_op_quiet b f done op Hq) as (b' & t & Hop & Ht & _).
    eauto.
  - intros b intervalTime Hb. split; [by apply function_Update_running|]. split.
    + change (S (invocations (notifications [] (_OnEventFuncs b) EV.FINISHED)) = 1).
      by rewrite invocations_notifications.
    + split; [reflexivity|]. intros ops. apply function_ops_after_end. by left.
  - intros b ops. apply function_ops_at_most_once.
Qed.

Lemma ActionFunction_called_once_witness :
  Update env0 (mkBase ST.RUNNING [7], ActionFunction 1 false) 5 =
    Ok ((mkBase ST.FINISHED [7], ActionFunction 1 true), 5%Q)
       [Invoke 1; Notify [] 7 EV.FINISHED] /\
  invocations [Invoke 1; Notify [] 7 EV.FINISHED] = 1 /\
  IsDone (ActionFunction 1 true) = true /\
  forall ops, exists a' t',
    run_ops ops (mkBase ST.FINISHED [7], ActionFunction 1 true) = Ok a' t' /\
    invocations t' = 0.
Proof.
  apply (proj1 (proj2 (ActionFunction_called_once env0 1 false))
           (mkBase ST.RUNNING [7]) 5%Q).
  reflexivity.
Defined.

(** ** The registry *)

Lemma Start_Ok a : exists a' t, Start a = Ok a' t /\ (status a = ST.INIT -> status a' = ST.RUNNING).
Proof.
  destruct a as [[s obs] d]. unfold Start, Action_Start, status.
  destruct s; eexists _, _; (split; [reflexivity|]); simpl; congruence.
Qed.

(** C9. [Start] twice under one name: after the first call the name is
    registered, and the second call changes nothing, calls nothing, faults
    nowhere and leaves its action as it was.  When the name was free before,
    the entry is the first action, started. *)
Theorem ActionManager_Start_twice (name : string) (a1 a2 : Action)
    (m : gmap string Action) :
  exists m1 a1' t1,
    ActionManager_Start name a1 m = Ok (m1, a1') t1 /\
    is_Some (m1 !! name) /\
    ActionManager_Start name a2 m1 = Ok (m1, a2) [] /\
    (m !! name = None ->
       Start a1 = Ok a1' t1 /\
       m1 = <[name := a1']> m /\
       m1 !! name = Some a1' /\
       (status a1 = ST.INIT -> status a1' = ST.RUNNING)).
Proof.
  unfold ActionManager_Start. destruct (m !! name) as [a0|] eqn:Hm.
  - exists m, a1, []. split; [reflexivity|]. split; [by rewrite Hm|].
    split; [by rewrite Hm|]. discriminate.
  - destruct (Start_Ok a1) as (a1' & t1 & Hstart & Hrun).
    exists (<[name := a1']> m), a1', (t1 ++ []). rewrite Hstart. cbn [bind ret].
    split; [reflexivity|]. rewrite lookup_insert_eq.
    split; [by eexists|]. split; [reflexivity|].
    intros _. rewrite app_nil_r. auto.
Qed.

Lemma ActionManager_Start_twice_witness :
  exists m1 a1' t1,
    ActionManager_Start "jump" (new_ActionFunction [7] 1) ∅ = Ok (m1, a1') t1 /\
    ActionManager_Start "jump" (new_ActionFunction [8] 2) m1 =
      Ok (m1, new_ActionFunction [8] 2) [] /\
    Start (new_ActionFunction [7] 1) = Ok a1' t1 /\
    m1 !! "jump" = Some a1' /\
    status a1' = ST.RUNNING.
Proof.
  destruct (ActionManager_Start_twice "jump" (new_ActionFunction [7] 1)
              (new_ActionFunction [8] 2) ∅) as (m1 & a1' & t1 & H1 & _ & H2 & H3).
  destruct (H3 (lookup_empty _)) as (Hs & _ & Hl & Hr).
  exists m1, a1', t1. repeat split; try assumption. apply Hr. reflexivity.
Defined.

Lemma ActionManager_Update_loop_spec env intervalTime its :
  forall (mc m' : gmap string Action) t,
    NoDup its.*1 ->
    ActionManager_Update_loop env its intervalTime mc = Ok m' t ->
    forall name,
      (name ∉ its.*1 -> m' !! name = mc !! name) /\
      (forall a, (name, a) ∈ its ->
         exists r ta, Update env a intervalTime = Ok r ta /\
                      m' !! name = if IsFinished r.1.1 then None else Some r.1).
Proof.
  induction its as [|[n0 a0] its IH]; intros mc m' t Hnd H name; cbn [ActionManager_Update_loop] in H.
  - exec_inv. split; [reflexivity|]. intros a Ha. inversion Ha.
  - apply bind_Ok in H. destruct H as (r & t1 & t2 & Hupd & Hloop & ->).
    cbn [fst snd] in *. rewrite fmap_cons in Hnd. cbn [fst] in Hnd.
    apply NoDup_cons in Hnd. destruct Hnd as [Hn0 Hnd].
    destruct (IH _ _ _ Hnd Hloop name) as [IH1 IH2].
    assert (Hhead : m' !! n0 = if IsFinished r.1.1 then None else Some r.1).
    { destruct (IH _ _ _ Hnd Hloop n0) as [IH0 _]. rewrite (IH0 Hn0).
      destruct (IsFinished r.1.1); [apply lookup_delete_eq | apply lookup_insert_eq]. }
    split.
    + intros Hname. rewrite fmap_cons in Hname. cbn [fst] in Hname.
      apply not_elem_of_cons in Hname. destruct Hname as [Hne Hname].
      rewrite (IH1 Hname).
      destruct (IsFinished r.1.1); [by apply lookup_delete_ne | by apply lookup_insert_ne].
    + intros a Ha. apply elem_of_cons in Ha. destruct Ha as [[= -> ->]|Ha].
      * exists r, t1. split; assumption.
      * by apply IH2.
Qed.

(** C10. [ActionManager::Update] drives the action registered under every
    name once; when that action is finished right after its [Update], the
    entry is gone when the call returns and [IsExist] answers false;
    otherwise the entry holds the updated action. *)
Theorem ActionManager_Update_cleans (env : Env) (intervalTime : Q)
    (m m' : gmap string Action) (t : Trace) (name : string) (a : Action) :
  ActionManager_Update env intervalTime m = Ok m' t ->
  m !! name = Some a ->
  exists a' left ta,
    Update env a intervalTime = Ok (a', left) ta /\
    (IsFinished a'.1 = true ->
       m' !! name = None /\ ActionManager_IsExist name m' = false) /\
    (IsFinished a'.1 = false ->
       m' !! name = Some a' /\ ActionManager_IsExist name m' = true).
Proof.
  intros Hupd Hname. unfold ActionManager_Update in Hupd.
  destruct (ActionManager_Update_loop_spec env intervalTime _ _ _ _
              (NoDup_fst_map_to_list m) Hupd name) as [_ Hin].
  destruct (Hin a) as ([a' left] & ta & Ha & Hm'); [by apply elem_of_map_to_list|].
  exists a', left, ta. split; [exact Ha|]. cbn [fst] in Hm'.
  unfold ActionManager_IsExist. rewrite Hm'.
  split; intros ->; split; reflexivity.
Qed.

Lemma ActionManager_Update_cleans_witness :
  exists a' left ta,
    Update env0 (mkBase ST.RUNNING [4], ActionWaitForTime 1 0 false) 1 = Ok (a', left) ta /\
    (IsFinished a'.1 = true ->
       (∅ : gmap string Action) !! "wait" = None /\
       ActionManager_IsExist "wait" ∅ = false) /\
    (IsFinished a'.1 = false ->
       (∅ : gmap string Action) !! "wait" = Some a' /\
       ActionManager_IsExist "wait" ∅ = true).
Proof.
  apply (ActionManager_Update_cleans env0 1
           {[ "wait" := (mkBase ST.RUNNING [4], ActionWaitForTime 1 0 false) ]}
           ∅ [Notify [] 4 EV.FINISHED] "wait").
  - vm_compute. reflexivity.
  - reflexivity.
Defined.

(** ** The loop body of ActionQueue::Update, line by line

    [ActionQueue_body] skips the [Update] once [Pause] has run.  It is the
    body of the source, where the three [if] statements follow each other:
    [Pause] runs on a running child only and leaves it paused. *)

Lemma Pause_not_running a a' t :
  IsRunning a.1 = true -> Pause a = Ok a' t -> IsRunning a'.1 = false.
Proof.
  destruct a as [b d]. unfold Pause. cbn [fst snd]. intros Hb H.
  apply Pause_table in H. destruct H as (e & Htr & _).
  apply IsRunning_true in Hb. rewrite Hb in Htr.
  unfold IsRunning. fold (status a'). inversion Htr; [reflexivity | congruence].
Qed.

Lemma ActionQueue_body_source env paused action intervalTime :
  ActionQueue_body (Update_ env) paused action intervalTime =
  (a1 <- (if IsInit action.1 then Start action else ret action) ;;
   a2 <- (if IsRunning a1.1 && paused then Pause a1 else ret a1) ;;
   if gtb intervalTime 0 && IsRunning a2.1 then Update env a2 intervalTime
   else ret (a2, intervalTime)).
Proof.
  destruct action as [b d]. unfold ActionQueue_body, Start, Update. cbn [fst snd].
  assert (Hfrom : forall b1,
    (if IsRunning b1 && paused then a2 <- Pause (b1, d) ;; ret (a2, intervalTime)
     else if gtb intervalTime 0 && IsRunning b1 then Update_ env b1 d intervalTime
          else ret ((b1, d), intervalTime)) =
    (a2 <- (if IsRunning b1 && paused then Pause (b1, d) else ret (b1, d)) ;;
     if gtb intervalTime 0 && IsRunning a2.1 then Update_ env a2.1 a2.2 intervalTime
     else ret (a2, intervalTime))).
  { intros b1. destruct (IsRunning b1) eqn:Hb1; cbn [andb].
    - destruct paused.
      + destruct (Pause (b1, d)) as [a2 t2|] eqn:HP; [|reflexivity].
        apply Pause_not_running in HP; [|exact Hb1]. cbn [bind ret].
        rewrite HP, andb_false_r. reflexivity.
      + rewrite bind_ret_l. cbn [fst snd]. by rewrite Hb1.
    - rewrite bind_ret_l. cbn [fst snd]. by rewrite Hb1. }
  destruct (IsInit b).
  - destruct (Action_Start_Ok b) as (b1 & t1 & ->). cbn [bind ret fst snd].
    rewrite Hfrom. rewrite app_nil_r. reflexivity.
  - rewrite !bind_ret_l. cbn [fst snd]. apply Hfrom.
Qed.

(** The loop of [ActionQueue::Update], one round at a time: with the
    cursor in range the child under it is driven, and the loop goes on
    behind it when that child is finished; otherwise the loop ends. *)
Lemma ActionQueue_loop_cursor U paused l i pos intervalTime :
  ActionQueue_loop U paused l i pos intervalTime =
  match l !! i with
  | None => ret (l, pos + i, intervalTime)
  | Some action =>
      r <- in_child (pos + i) (ActionQueue_body U paused action intervalTime) ;;
      if IsFinished r.1.1 then
        ActionQueue_loop U paused (<[i := r.1]> l) (S i) pos r.2
      else ret (<[i := r.1]> l, pos + i, r.2)
  end.
Proof.
  revert i pos intervalTime. induction l as [|a l IH]; intros [|i] pos dt;
    cbn [ActionQueue_loop lookup list_lookup]; try reflexivity.
  - rewrite Nat.add_0_r.
    destruct (in_child pos (ActionQueue_body U paused a dt)) as [r t|]; [|reflexivity].
    cbn [bind]. destruct (IsFinished r.1.1); reflexivity.
  - rewrite IH. replace (S pos + i) with (pos + S i) by lia.
    destruct (l !! i) as [c|]; [|reflexivity].
    destruct (in_child (pos + S i) (ActionQueue_body U paused c dt)) as [r t|]; [|reflexivity].
    cbn [bind]. destruct (IsFinished r.1.1); [|cbn; by rewrite ?app_nil_r].
    cbn [insert list_insert ActionQueue_loop].
    destruct (ActionQueue_loop U paused (<[i:=r.1]> l) (S i) (S pos) r.2) as [r' t'|];
      cbn; by rewrite ?app_nil_r.
Qed.

(** * More properties of the code *)

(** ** Induction on action trees *)

Lemma Derived_nested_ind (P : Derived -> Prop) :
  (forall l i, Forall (fun a : Action => P a.2) l -> P (ActionQueue l i)) ->
  (forall l, Forall (fun a : Action => P a.2) l -> P (ActionWaitAny l)) ->
  (forall l, Forall (fun a : Action => P a.2) l -> P (ActionWaitAll l)) ->
  (forall v x dn, P (ActionChecker v x dn)) ->
  (forall w e dn, P (ActionWaitForTime w e dn)) ->
  (forall f dn, P (ActionFunction f dn)) ->
  forall d, P d.
Proof.
  intros HQ HAny HAll HC HT HF. fix IH 1.
  intros [l i|l|l|v x dn|w e dn|f dn].
  - apply HQ. revert l. fix IHl 1.
    intros [|[b d] l]; constructor; [apply IH | apply IHl].
  - apply HAny. revert l. fix IHl 1.
    intros [|[b d] l]; constructor; [apply IH | apply IHl].
  - apply HAll. revert l. fix IHl 1.
    intros [|[b d] l]; constructor; [apply IH | apply IHl].
  - apply HC.
  - apply HT.
  - apply HF.
Qed.

(** ** The registry: Stop, StopAll, PauseAll, ResumeAll *)

(** X1. [ActionManager::Stop] erases the entry of the name it stops: the
    name is not registered afterwards, the other entries are untouched, and
    for a name that was not registered nothing happens at all. *)
Theorem ActionManager_Stop_erases (name : string) (m m' : gmap string Action) (t : Trace) :
  ActionManager_Stop name m = Ok m' t ->
  ActionManager_IsExist name m' = false /\
  (forall n, n <> name -> m' !! n = m !! n) /\
  (m !! name = None -> m' = m /\ t = []).
Proof.
  unfold ActionManager_Stop, ActionManager_IsExist.
  destruct (m !! name) as [a|] eqn:Hm; intros H; exec_inv.
  - rewrite lookup_delete_eq. split; [reflexivity|]. split; [|discriminate].
    intros n Hn. by apply lookup_delete_ne.
  - rewrite Hm. auto.
Qed.

Lemma ActionManager_Stop_erases_witness :
  ActionManager_IsExist "wait" (∅ : gmap string Action) = false.
Proof.
  apply (ActionManager_Stop_erases "wait" {[ "wait" := new_ActionWaitForTime [4] 1 ]} ∅
           [Notify [] 4 EV.CANCELED]).
  vm_compute. reflexivity.
Defined.

(** X2. Registering an action under a free name and stopping that name
    gives the registry back as it was. *)
Theorem ActionManager_Start_Stop (name : string) (a : Action)
    (m m' : gmap string Action) (t : Trace) :
  m !! name = None ->
  (r <- ActionManager_Start name a m ;; ActionManager_Stop name r.1) = Ok m' t ->
  m' = m.
Proof.
  intros Hm H. unfold ActionManager_Start in H. rewrite Hm in H. exec_inv.
  cbn [fst] in *. unfold ActionManager_Stop in *.
  match goal with E : context [<[name:=?x]> m !! name] |- _ =>
    rewrite lookup_insert_eq in E; rename E into HS end.
  exec_inv. rewrite delete_insert_eq. by apply delete_id.
Qed.

Lemma ActionManager_Start_Stop_witness :
  ({[ "other" := new_ActionFunction [] 2 ]} : gmap string Action) =
  {[ "other" := new_ActionFunction [] 2 ]}.
Proof.
  apply (ActionManager_Start_Stop "wait" (new_ActionWaitForTime [4] 1)
           {[ "other" := new_ActionFunction [] 2 ]}
           {[ "other" := new_ActionFunction [] 2 ]}
           [Notify [] 4 EV.STARTED; Notify [] 4 EV.CANCELED]).
  - reflexivity.
  - vm_compute. reflexivity.
Defined.

Lemma ActionManager_StopAll_loop_spec its :
  forall (mc m' : gmap string Action) t,
    ActionManager_StopAll_loop its mc = Ok m' t ->
    forall n, m' !! n = if decide (n ∈ its.*1) then None else mc !! n.
Proof.
  induction its as [|[n0 a0] its IH]; intros mc m' t H n; cbn [ActionManager_StopAll_loop] in H.
  - exec_inv. destruct (decide _) as [Hin|_]; [inversion Hin | reflexivity].
  - exec_inv. cbn [fst snd] in *.
    match goal with E : ActionManager_StopAll_loop _ _ = Ok _ _ |- _ =>
      rewrite (IH _ _ _ E n) end.
    rewrite fmap_cons. cbn [fst].
    destruct (decide (n ∈ its.*1)) as [Hin|Hin].
    + rewrite decide_True; [reflexivity | by right].
    + destruct (decide (n = n0)) as [->|Hne].
      * rewrite decide_True by left. apply lookup_delete_eq.
      * rewrite decide_False by (by intros [?|?]%elem_of_cons).
        by apply lookup_delete_ne.
Qed.

(** X3. [ActionManager::StopAll], when it returns, leaves the registry
    empty. *)
Theorem ActionManager_StopAll_empties (m m' : gmap string Action) (t : Trace) :
  ActionManager_StopAll m = Ok m' t ->
  m' = ∅ /\ ActionManager_GetActionSize m' = 0.
Proof.
  intros H. assert (Hm' : m' = ∅).
  { apply map_empty. intros n.
    rewrite (ActionManager_StopAll_loop_spec _ _ _ _ H n).
    destruct (decide _) as [_|Hn]; [reflexivity|].
    destruct (m !! n) as [a|] eqn:Hm; [|reflexivity].
    exfalso. apply Hn. apply list_elem_of_fmap. exists (n, a).
    split; [reflexivity | by apply elem_of_map_to_list]. }
  split; [exact Hm'|]. subst m'. apply map_size_empty.
Qed.

Lemma ActionManager_StopAll_empties_witness :
  (∅ : gmap string Action) = ∅ /\ ActionManager_GetActionSize (∅ : gmap string Action) = 0.
Proof.
  apply (ActionManager_StopAll_empties
           {[ "wait" := new_ActionWaitForTime [4] 1; "other" := new_ActionFunction [5] 2 ]} ∅
           [Notify [] 5 EV.CANCELED; Notify [] 4 EV.CANCELED]).
  vm_compute. reflexivity.
Defined.

Lemma ActionManager_for_all_loop_spec f its :
  forall (mc m' : gmap string Action) t,
    NoDup its.*1 ->
    ActionManager_for_all_loop f its mc = Ok m' t ->
    forall name,
      (name ∉ its.*1 -> m' !! name = mc !! name) /\
      (forall a, (name, a) ∈ its ->
         exists a' ta, f a = Ok a' ta /\ m' !! name = Some a').
Proof.
  induction its as [|[n0 a0] its IH]; intros mc m' t Hnd H name;
    cbn [ActionManager_for_all_loop] in H.
  - exec_inv. split; [reflexivity|]. intros a Ha. inversion Ha.
  - apply bind_Ok in H. destruct H as (a1 & t1 & t2 & Hf & Hloop & ->).
    cbn [fst snd] in *. rewrite fmap_cons in Hnd. cbn [fst] in Hnd.
    apply NoDup_cons in Hnd. destruct Hnd as [Hn0 Hnd].
    destruct (IH _ _ _ Hnd Hloop name) as [IH1 IH2].
    split.
    + intros Hname. rewrite fmap_cons in Hname. cbn [fst] in Hname.
      apply not_elem_of_cons in Hname. destruct Hname as [Hne Hname].
      rewrite (IH1 Hname). by apply lookup_insert_ne.
    + intros a Ha. apply elem_of_cons in Ha. destruct Ha as [[= -> ->]|Ha].
      * exists a1, t1. split; [exact Hf|].
        destruct (IH _ _ _ Hnd Hloop n0) as [IH0 _]. rewrite (IH0 Hn0).
        apply lookup_insert_eq.
      * by apply IH2.
Qed.

Lemma ActionManager_for_all_spec f (m m' : gmap string Action) t :
  ActionManager_for_all_loop f (map_to_list m) m = Ok m' t ->
  forall name,
    match m !! name with
    | Some a => exists a' ta, f a = Ok a' ta /\ m' !! name = Some a'
    | None => m' !! name = None
    end.
Proof.
  intros H name.
  destruct (ActionManager_for_all_loop_spec f _ _ _ _ (NoDup_fst_map_to_list m) H name)
    as [Hout Hin].
  destruct (m !! name) as [a|] eqn:Hm.
  - apply Hin. by apply elem_of_map_to_list.
  - apply Hout. intros ([n a] & Hn & Hel)%list_elem_of_fmap.
    cbn [fst] in Hn. subst n. apply elem_of_map_to_list in Hel. congruence.
Qed.

Lemma Pause_status a a' t : Pause a = Ok a' t -> status a' <> ST.RUNNING.
Proof.
  destruct a as [b d]. unfold Pause. cbn [fst snd]. intros H.
  apply Pause_table in H. destruct H as (e & Htr & _).
  inversion Htr; subst; congruence.
Qed.

Lemma Resume_status a a' t : Resume a = Ok a' t -> status a' <> ST.PAUSED.
Proof.
  destruct a as [b d]. unfold Resume. cbn [fst snd]. intros H.
  apply Resume_table in H. destruct H as (e & Htr & _).
  inversion Htr; subst; congruence.
Qed.

(** X4. [ActionManager::PauseAll], when it returns, has kept every name
    and added none, and no registered root action is running. *)
Theorem ActionManager_PauseAll_pauses (m m' : gmap string Action) (t : Trace) :
  ActionManager_PauseAll m = Ok m' t ->
  (forall n, is_Some (m' !! n) <-> is_Some (m !! n)) /\
  (forall n a', m' !! n = Some a' -> status a' <> ST.RUNNING).
Proof.
  intros H. pose proof (ActionManager_for_all_spec Pause m m' t H) as Hspec. split.
  - intros n. specialize (Hspec n). destruct (m !! n) as [a|].
    + destruct Hspec as (a' & ta & _ & ->). split; eauto.
    + rewrite Hspec. reflexivity.
  - intros n a' Hn. specialize (Hspec n). destruct (m !! n) as [a|].
    + destruct Hspec as (a1 & ta & Hp & Hl). rewrite Hl in Hn. injection Hn as <-.
      by eapply Pause_status.
    + congruence.
Qed.

Lemma ActionManager_PauseAll_pauses_witness :
  (forall n,
     is_Some (({[ "wait" := (mkBase ST.PAUSED [4], ActionWaitForTime 1 0 false) ]}
                 : gmap string Action) !! n) <->
     is_Some (({[ "wait" := (mkBase ST.RUNNING [4], ActionWaitForTime 1 0 false) ]}
                 : gmap string Action) !! n)) /\
  (forall n a',
     ({[ "wait" := (mkBase ST.PAUSED [4], ActionWaitForTime 1 0 false) ]}
        : gmap string Action) !! n = Some a' ->
     status a' <> ST.RUNNING).
Proof.
  apply (ActionManager_PauseAll_pauses
           {[ "wait" := (mkBase ST.RUNNING [4], ActionWaitForTime 1 0 false) ]}
           {[ "wait" := (mkBase ST.PAUSED [4], ActionWaitForTime 1 0 false) ]}
           [Notify [] 4 EV.PAUSED]).
  vm_compute. reflexivity.
Defined.

(** X5. [ActionManager::ResumeAll], when it returns, has kept every name
    and added none, and no registered root action is paused. *)
Theorem ActionManager_ResumeAll_resumes (m m' : gmap string Action) (t : Trace) :
  ActionManager_ResumeAll m = Ok m' t ->
  (forall n, is_Some (m' !! n) <-> is_Some (m !! n)) /\
  (forall n a', m' !! n = Some a' -> status a' <> ST.PAUSED).
Proof.
  intros H. pose proof (ActionManager_for_all_spec Resume m m' t H) as Hspec. split.
  - intros n. specialize (Hspec n). destruct (m !! n) as [a|].
    + destruct Hspec as (a' & ta & _ & ->). split; eauto.
    + rewrite Hspec. reflexivity.
  - intros n a' Hn. specialize (Hspec n). destruct (m !! n) as [a|].
    + destruct Hspec as (a1 & ta & Hp & Hl). rewrite Hl in Hn. injection Hn as <-.
      by eapply Resume_status.
    + congruence.
Qed.

Lemma ActionManager_ResumeAll_resumes_witness :
  (forall n,
     is_Some (({[ "wait" := (mkBase ST.RUNNING [4], ActionWaitForTime 1 0 false) ]}
                 : gmap string Action) !! n) <->
     is_Some (({[ "wait" := (mkBase ST.PAUSED [4], ActionWaitForTime 1 0 false) ]}
                 : gmap string Action) !! n)) /\
  (forall n a',
     ({[ "wait" := (mkBase ST.RUNNING [4], ActionWaitForTime 1 0 false) ]}
        : gmap string Action) !! n = Some a' ->
     status a' <> ST.PAUSED).
Proof.
  apply (ActionManager_ResumeAll_resumes
           {[ "wait" := (mkBase ST.PAUSED [4], ActionWaitForTime 1 0 false) ]}
           {[ "wait" := (mkBase ST.RUNNING [4], ActionWaitForTime 1 0 false) ]}
           [Notify [] 4 EV.RESUMED]).
  vm_compute. reflexivity.
Defined.

(** X6. When [ActionManager::Update] returns, every action still
    registered is the updated action of an entry that was there before, and
    it is not finished: the registry holds no finished root and gains no
    name. *)
Theorem ActionManager_Update_keeps_unfinished (env : Env) (intervalTime : Q)
    (m m' : gmap string Action) (t : Trace) (n : string) (a' : Action) :
  ActionManager_Update env intervalTime m = Ok m' t ->
  m' !! n = Some a' ->
  IsFinished a'.1 = false /\
  exists a left ta, m !! n = Some a /\ Update env a intervalTime = Ok (a', left) ta.
Proof.
  intros H Hn. unfold ActionManager_Update in H.
  destruct (ActionManager_Update_loop_spec env intervalTime _ _ _ _
              (NoDup_fst_map_to_list m) H n) as [Hout Hin].
  destruct (m !! n) as [a|] eqn:Hm.
  - destruct (Hin a) as ([a1 left] & ta & Ha & Hm'); [by apply elem_of_map_to_list|].
    cbn [fst] in Hm'. rewrite Hn in Hm'.
    destruct (IsFinished a1.1) eqn:Hfin; [discriminate|].
    injection Hm' as ->. split; [exact Hfin|]. eauto.
  - exfalso. rewrite Hout in Hn; [discriminate|].
    intros ([n1 a1] & Hn1 & Hel)%list_elem_of_fmap.
    cbn [fst] in Hn1. subst n1. apply elem_of_map_to_list in Hel. congruence.
Qed.

Lemma ActionManager_Update_keeps_unfinished_witness :
  IsFinished (mkBase ST.RUNNING [4]) = false /\
  exists a left ta,
    ({[ "wait" := (mkBase ST.RUNNING [4], ActionWaitForTime 3 0 false) ]}
       : gmap string Action) !! "wait" = Some a /\
    Update env0 a 1 = Ok ((mkBase ST.RUNNING [4], ActionWaitForTime 3 1 false), left) ta.
Proof.
  apply (ActionManager_Update_keeps_unfinished env0 1
           {[ "wait" := (mkBase ST.RUNNING [4], ActionWaitForTime 3 0 false) ]}
           {[ "wait" := (mkBase ST.RUNNING [4], ActionWaitForTime 3 1 false) ]}
           [] "wait" (mkBase ST.RUNNING [4], ActionWaitForTime 3 1 false)).
  - vm_compute. reflexivity.
  - reflexivity.
Defined.

(** ** Status: what never happens *)

Lemma run_op_transition op a a' t :
  run_op op a = Ok a' t ->
  exists e, transition (is_composite a.2) op (status a) (status a') e.
Proof.
  destruct a as [b d]. destruct op; cbn [run_op fst snd]; intros H.
  - unfold Start in H. cbn [fst snd] in H. exec_inv.
    match goal with E : Action_Start _ = Ok _ _ |- _ =>
      apply (Action_Start_table (is_composite d)) in E; destruct E as (_ & e & He & _) end.
    eauto.
  - apply Pause_table in H. destruct H as (e & He & _). eauto.
  - apply Resume_table in H. destruct H as (e & He & _). eauto.
  - apply Stop_table in H. destruct H as (e & He & _). eauto.
  - exec_inv. destruct r as [a1 left].
    match goal with E : Update _ _ _ = Ok _ _ |- _ =>
      apply Update_table in E; destruct E as (e & He & _) end.
    eauto.
Qed.

Lemma transition_forward c op s s' e :
  transition c op s s' e ->
  ((status_value ST.FINISHED <= status_value s)%Z ->
   (status_value ST.FINISHED <= status_value s')%Z) /\
  (s' = ST.INIT -> s = ST.INIT).
Proof.
  intros H. inversion H; subst; split; simpl; try lia; try congruence; auto.
Qed.

(** X7. Along any sequence of operations that returns, an action that has
    reached the end of its life ([IsEndOfLife]: finished or canceled) stays
    there, and an action is in [INIT] afterwards only if it was in [INIT]
    before: nothing restarts an action. *)
Theorem status_never_revives (ops : list Op) (a a' : Action) (t : Trace) :
  run_ops ops a = Ok a' t ->
  (IsEndOfLife a.1 = true -> IsEndOfLife a'.1 = true) /\
  (status a' = ST.INIT -> status a = ST.INIT).
Proof.
  revert a t. induction ops as [|op ops IH]; intros a t H; cbn [run_ops] in H.
  - exec_inv. auto.
  - apply bind_Ok in H. destruct H as (a1 & t1 & t2 & Hop & Hops & ->).
    apply run_op_transition in Hop. destruct Hop as (e & Htr).
    apply transition_forward in Htr. destruct Htr as [Hend Hinit].
    destruct (IH _ _ Hops) as [IHend IHinit].
    unfold IsEndOfLife, status in *. rewrite !Z.leb_le in *. split; auto.
Qed.

Lemma status_never_revives_witness :
  (IsEndOfLife (mkBase ST.CANCELED [4]) = true -> IsEndOfLife (mkBase ST.CANCELED [4]) = true) /\
  (ST.CANCELED = ST.INIT -> ST.CANCELED = ST.INIT).
Proof.
  apply (status_never_revives [OpStart; OpResume; OpUpdate env0 5]
           (mkBase ST.CANCELED [4], ActionWaitForTime 1 0 false)
           (mkBase ST.CANCELED [4], ActionWaitForTime 1 0 false) []).
  reflexivity.
Defined.

(** ** Stop *)

Lemma Stop_status a a' t : Stop a = Ok a' t -> status a' = ST.CANCELED.
Proof.
  destruct a as [b d]. unfold Stop. cbn [fst snd]. intros H.
  apply Stop_table in H. destruct H as (e & Htr & _). by inversion Htr.
Qed.

Lemma for_each_Forall2 f pos l l' t :
  for_each f pos l = Ok l' t ->
  Forall2 (fun c c' => exists tc, f c = Ok c' tc) l l'.
Proof.
  revert pos l' t. induction l as [|a l IH]; intros pos l' t H; cbn [for_each] in H.
  - exec_inv. constructor.
  - apply bind_Ok in H. destruct H as (a' & t1 & t2 & Ha & H & ->).
    apply in_child_Ok in Ha. destruct Ha as (ta & Ha & ->).
    apply bind_Ok in H. destruct H as (rest' & t3 & t4 & Hrest & H & ->).
    exec_inv. constructor; [eauto | by eapply IH].
Qed.

Lemma Stop_base b d a' t :
  Stop_ b d = Ok a' t -> a'.1 = set_status ST.CANCELED b.
Proof.
  intros H. destruct d; cbn [Stop_] in H; exec_inv;
    match goal with E : Action_Stop _ = Ok _ _ |- _ =>
      unfold Action_Stop, _OnEvent, emit in E; cbn in E; injection E as <- _ end;
    reflexivity.
Qed.

Lemma at_index_stopped (l : list Action) :
  Forall (fun c : Action =>
            forall b a' t, Stop_ b c.2 = Ok a' t -> stopped a'.1 a'.2 = true) l ->
  forall pos i l' t b,
    at_index (fun a => Stop_ a.1 a.2) pos l i = Ok l' t ->
    IsCanceled b = true ->
    stopped b (ActionQueue l' i) = true.
Proof.
  induction 1 as [|c l Hc _ IHl]; intros pos [|i] l' t b Hat Hb; cbn [at_index] in Hat;
    exec_inv; cbn [stopped]; rewrite Hb; cbn [andb].
  - eapply Hc. eassumption.
  - match goal with E : at_index _ _ _ _ = Ok _ _ |- _ =>
      specialize (IHl _ _ _ _ b E Hb) end.
    cbn [stopped] in IHl. rewrite Hb in IHl. exact IHl.
Qed.

Lemma for_each_stopped (l : list Action) :
  Forall (fun c : Action =>
            forall b a' t, Stop_ b c.2 = Ok a' t -> stopped a'.1 a'.2 = true) l ->
  forall pos l' t,
    for_each (fun a => Stop_ a.1 a.2) pos l = Ok l' t ->
    forallb (fun a : Action => stopped a.1 a.2) l' = true.
Proof.
  intros IH pos l' t HF. apply for_each_Forall2 in HF.
  induction HF as [|c c' l l' (tc & Hc) _ IHl]; [reflexivity|].
  apply Forall_cons in IH. destruct IH as [IHc IH].
  cbn [forallb]. rewrite (IHc _ _ _ Hc). cbn [andb]. by apply IHl.
Qed.

(** X8. A [Stop] that returns leaves canceled every action it reaches: the
    action itself, every child of a WaitAny or WaitAll, the child under the
    cursor of a queue, and so on down the tree. *)
Theorem Stop_cancels_subtree (a a' : Action) (t : Trace) :
  Stop a = Ok a' t -> stopped a'.1 a'.2 = true.
Proof.
  destruct a as [b d]. unfold Stop. cbn [fst snd]. revert b a' t.
  induction d as [l i IH|l IH|l IH|v x dn|w e dn|f dn] using Derived_nested_ind;
    intros b a' t H; pose proof (Stop_base _ _ _ _ H) as Hb;
    cbn [Stop_] in H; exec_inv; cbn [fst snd] in *; subst.
  - eapply at_index_stopped; [exact IH | eassumption | reflexivity].
  - cbn [stopped]. erewrite for_each_stopped by eassumption. reflexivity.
  - cbn [stopped]. erewrite for_each_stopped by eassumption. reflexivity.
  - reflexivity.
  - reflexivity.
  - reflexivity.
Qed.

Lemma Stop_cancels_subtree_witness :
  stopped (mkBase ST.CANCELED [9])
    (ActionWaitAll [(mkBase ST.CANCELED [],
                     ActionQueue [(mkBase ST.FINISHED [], ActionFunction 1 true);
                                  (mkBase ST.CANCELED [], ActionWaitForTime 2 0 false)] 1);
                    (mkBase ST.CANCELED [], ActionFunction 2 true)]) = true.
Proof.
  apply (Stop_cancels_subtree
           (mkBase ST.RUNNING [9],
            ActionWaitAll [(mkBase ST.RUNNING [],
                            ActionQueue [(mkBase ST.FINISHED [], ActionFunction 1 true);
                                         (mkBase ST.RUNNING [], ActionWaitForTime 2 0 false)] 1);
                           (mkBase ST.FINISHED [], ActionFunction 2 true)])
           (mkBase ST.CANCELED [9],
            ActionWaitAll [(mkBase ST.CANCELED [],
                            ActionQueue [(mkBase ST.FINISHED [], ActionFunction 1 true);
                                         (mkBase ST.CANCELED [], ActionWaitForTime 2 0 false)] 1);
                           (mkBase ST.CANCELED [], ActionFunction 2 true)])
           [Notify [] 9 EV.CANCELED]).
  reflexivity.
Defined.

(** ** WaitAny and WaitAll: the children after an update *)

Lemma started_not_INIT b b1 t :
  (if IsInit b then Action_Start b else ret b) = Ok b1 t -> _status b1 <> ST.INIT.
Proof.
  destruct b as [[] obs]; cbn; intros H; exec_inv; discriminate.
Qed.

Lemma Update_not_INIT env b d dt u t :
  Update_ env b d dt = Ok u t -> _status b <> ST.INIT -> status u.1 <> ST.INIT.
Proof.
  destruct u as [a' left]. intros H Hb Hu. apply Update_table in H.
  destruct H as (e & Htr & _). apply transition_forward in Htr. tauto.
Qed.

Lemma ActionWaitAll_loop_started env l pos dt m r t :
  ActionWaitAll_loop (Update_ env) l pos dt m = Ok r t ->
  Forall (fun c => status c <> ST.INIT) r.1.
Proof.
  revert pos m r t. induction l as [|[b d] l IH]; intros pos m r t H;
    cbn [ActionWaitAll_loop] in H.
  - exec_inv. constructor.
  - apply bind_Ok in H. destruct H as (r0 & t1 & t2 & Hround & H & ->).
    apply in_child_Ok in Hround. destruct Hround as (t0 & Hround & ->).
    apply bind_Ok in H. destruct H as (r' & t3 & t4 & Hrest & H & ->).
    apply bind_Ok in Hround. destruct Hround as (b1 & t5 & t6 & Hstart & Hround & ->).
    apply started_not_INIT in Hstart.
    destruct (IsRunning b1).
    + apply bind_Ok in Hround. destruct Hround as (u & t7 & t8 & Hu & Hround & ->).
      exec_inv. cbn [fst snd] in *. constructor; [|by eapply IH].
      by eapply Update_not_INIT.
    + exec_inv. cbn [fst snd] in *. constructor; [exact Hstart | by eapply IH].
Qed.

Lemma ActionWaitAny_loop_started env l pos dt m r t :
  ActionWaitAny_loop (Update_ env) l pos dt m = Ok r t ->
  Forall (fun c => status c <> ST.INIT) r.1.
Proof.
  revert pos m r t. induction l as [|[b d] l IH]; intros pos m r t H;
    cbn [ActionWaitAny_loop] in H.
  - exec_inv. constructor.
  - apply bind_Ok in H. destruct H as (r0 & t1 & t2 & Hround & H & ->).
    apply in_child_Ok in Hround. destruct Hround as (t0 & Hround & ->).
    apply bind_Ok in H. destruct H as (r' & t3 & t4 & Hrest & H & ->).
    apply bind_Ok in Hround. destruct Hround as (b1 & t5 & t6 & Hstart & Hround & ->).
    apply started_not_INIT in Hstart.
    destruct (IsRunning b1).
    + apply bind_Ok in Hround. destruct Hround as (u & t7 & t8 & Hu & Hround & ->).
      exec_inv. cbn [fst snd] in *. constructor; [|by eapply IH].
      by eapply Update_not_INIT.
    + exec_inv. cbn [fst snd] in *. constructor; [exact Hstart | by eapply IH].
Qed.

(** What [ActionWaitAny::UpdateStatus] makes of the children. *)
Lemma ActionWaitAny_UpdateStatus_children b l a' t :
  ActionWaitAny_UpdateStatus b l = Ok a' t ->
  exists l',
    a'.2 = ActionWaitAny l' /\
    Forall2 (fun c c' =>
               c' = c \/ (status a' = ST.FINISHED /\ status c <> ST.FINISHED /\
                          status c' = ST.CANCELED)) l l' /\
    (status a' = ST.FINISHED ->
     Forall (fun c' => status c' = ST.FINISHED \/ status c' = ST.CANCELED) l').
Proof.
  unfold ActionWaitAny_UpdateStatus. intros H.
  apply bind_Ok in H. destruct H as (b' & t1 & t2 & Hb & H & ->).
  destruct (IsFinished b') eqn:Hfin.
  - apply bind_Ok in H. destruct H as (l' & t3 & t4 & HF & H & ->). exec_inv.
    apply for_each_Forall2 in HF. apply IsFinished_true in Hfin.
    exists l'. split; [reflexivity|].
    change (status (b', ActionWaitAny l')) with (_status b'). clear Hb.
    split.
    + induction HF as [|c c' l0 l0' (tc & Hc) _ IHl]; [constructor|].
      constructor; [|exact IHl].
      destruct (IsFinished c.1) eqn:Hcf; cbn [negb] in Hc.
      * exec_inv. by left.
      * right. split; [exact Hfin|]. split.
        -- intros Hs. apply IsFinished_true in Hs. congruence.
        -- by eapply Stop_status.
    + intros _. induction HF as [|c c' l0 l0' (tc & Hc) _ IHl]; [constructor|].
      constructor; [|exact IHl].
      destruct (IsFinished c.1) eqn:Hcf; cbn [negb] in Hc.
      * exec_inv. left. by apply IsFinished_true.
      * right. by eapply Stop_status.
  - exec_inv. exists l. split; [reflexivity|]. split.
    + clear. induction l; [constructor|]. constructor; auto.
    + unfold status. cbn [fst]. intros Hs. apply IsFinished_true in Hs. congruence.
Qed.

(** X9. When an update leaves a WaitAny finished, each of its children is
    finished or canceled: none is left in [INIT], running or paused. *)
Theorem ActionWaitAny_finished_children (env : Env) (b : Base) (l : list Action)
    (intervalTime : Q) (a' : Action) (left : Q) (t : Trace) :
  Update env (b, ActionWaitAny l) intervalTime = Ok (a', left) t ->
  status a' = ST.FINISHED ->
  Forall (fun c => status c = ST.FINISHED \/ status c = ST.CANCELED) (children a'.2).
Proof.
  unfold Update. cbn [fst snd]. rewrite Update_ActionWaitAny. intros H Hfin.
  apply bind_Ok in H. destruct H as (r & t1 & t2 & _ & H & ->).
  unfold Action_Update in H. apply bind_Ok in H. destruct H as (a1 & t3 & t4 & HU & H & ->).
  exec_inv. unfold UpdateStatus in HU. cbn [fst snd] in HU.
  apply ActionWaitAny_UpdateStatus_children in HU.
  destruct HU as (l' & -> & _ & Hall). cbn [children]. auto.
Qed.

Lemma ActionWaitAny_finished_children_witness :
  Forall (fun c => status c = ST.FINISHED \/ status c = ST.CANCELED)
    [(mkBase ST.FINISHED [1], ActionWaitForTime 1 1 true);
     (mkBase ST.CANCELED [2], ActionFunction 3 false);
     (mkBase ST.CANCELED [3], ActionWaitForTime 3 1 false)].
Proof.
  apply (ActionWaitAny_finished_children env0 (mkBase ST.RUNNING [9])
           [new_ActionWaitForTime [1] 1;
            (mkBase ST.PAUSED [2], ActionFunction 3 false);
            new_ActionWaitForTime [3] 3] 1
           (mkBase ST.FINISHED [9],
            ActionWaitAny [(mkBase ST.FINISHED [1], ActionWaitForTime 1 1 true);
                           (mkBase ST.CANCELED [2], ActionFunction 3 false);
                           (mkBase ST.CANCELED [3], ActionWaitForTime 3 1 false)])
           0%Q
           [Notify [0] 1 EV.STARTED; Notify [0] 1 EV.FINISHED; Notify [2] 3 EV.STARTED;
            Notify [] 9 EV.FINISHED; Notify [1] 2 EV.CANCELED; Notify [2] 3 EV.CANCELED]).
  - vm_compute. reflexivity.
  - reflexivity.
Defined.

(** X10. An update of a WaitAny or of a WaitAll, whatever the status of
    the composite, leaves none of its children in [INIT]: every child has
    been started. *)
Theorem parallel_Update_starts_children (env : Env) (b : Base) (d : Derived)
    (intervalTime : Q) (a' : Action) (left : Q) (t : Trace) :
  (exists l, d = ActionWaitAny l \/ d = ActionWaitAll l) ->
  Update env (b, d) intervalTime = Ok (a', left) t ->
  Forall (fun c => status c <> ST.INIT) (children a'.2).
Proof.
  intros (l & [-> | ->]); unfold Update; cbn [fst snd].
  - rewrite Update_ActionWaitAny. intros H.
    apply bind_Ok in H. destruct H as (r & t1 & t2 & Hloop & H & ->).
    apply ActionWaitAny_loop_started in Hloop.
    unfold Action_Update in H. apply bind_Ok in H. destruct H as (a1 & t3 & t4 & HU & H & ->).
    exec_inv. unfold UpdateStatus in HU. cbn [fst snd] in HU.
    apply ActionWaitAny_UpdateStatus_children in HU.
    destruct HU as (l' & -> & Hsteps & _). cbn [children].
    induction Hsteps as [|c c' l1 l1' Hc _ IHl]; [constructor|].
    apply Forall_cons in Hloop. destruct Hloop as [Hc0 Hl0].
    constructor; [|by apply IHl].
    destruct Hc as [-> | (_ & _ & ->)]; [exact Hc0 | discriminate].
  - rewrite Update_ActionWaitAll. intros H.
    apply bind_Ok in H. destruct H as (r & t1 & t2 & Hloop & H & ->).
    apply ActionWaitAll_loop_started in Hloop.
    unfold Action_Update, UpdateStatus in H. cbn [fst snd] in H. exec_inv. exact Hloop.
Qed.

Lemma parallel_Update_starts_children_witness :
  Forall (fun c => status c <> ST.INIT)
    [(mkBase ST.RUNNING [1], ActionWaitForTime 2 1 false);
     (mkBase ST.FINISHED [2], ActionFunction 3 true)].
Proof.
  apply (parallel_Update_starts_children env0 (mkBase ST.PAUSED [9])
           (ActionWaitAll [new_ActionWaitForTime [1] 2; new_ActionFunction [2] 3]) 1
           (mkBase ST.PAUSED [9],
            ActionWaitAll [(mkBase ST.RUNNING [1], ActionWaitForTime 2 1 false);
                           (mkBase ST.FINISHED [2], ActionFunction 3 true)])
           0%Q
           [Notify [0] 1 EV.STARTED; Notify [1] 2 EV.STARTED; Invoke 3;
            Notify [1] 2 EV.FINISHED]).
  - eexists. right. reflexivity.
  - vm_compute. reflexivity.
Defined.

(** ** The cursor of a sequence *)

Lemma ActionQueue_loop_cursor_bounds U paused l :
  forall skip pos dt l' idx dt' t,
    ActionQueue_loop U paused l skip pos dt = Ok (l', idx, dt') t ->
    length l' = length l /\
    pos + skip <= idx /\
    (skip <= length l -> idx <= pos + length l) /\
    take skip l' = take skip l /\
    drop (S (idx - pos)) l' = drop (S (idx - pos)) l /\
    (forall k c, skip <= k < idx - pos -> l' !! k = Some c -> status c = ST.FINISHED).
Proof.
  induction l as [|a l IH]; intros [|skip] pos dt l' idx dt' t H;
    cbn [ActionQueue_loop] in H.
  - exec_inv. split; [|split; [|split; [|split; [|split]]]]; cbn [length];
      try reflexivity; lia.
  - exec_inv. split; [|split; [|split; [|split; [|split]]]]; cbn [length];
      try reflexivity; lia.
  - apply bind_Ok in H. destruct H as (r & t1 & t2 & Hbody & H & ->).
    destruct (IsFinished r.1.1) eqn:Hfin.
    + apply bind_Ok in H. destruct H as ([[lr ir] dr] & t3 & t4 & Hrest & H & ->).
      exec_inv. cbn [fst snd] in *.
      destruct (IH _ _ _ _ _ _ _ Hrest) as (Hlen & Hlo & Hhi & _ & Hdrop & Hfinished).
      split; [cbn [length]; lia|]. split; [lia|]. split; [cbn [length]; lia|].
      split; [reflexivity|]. split.
      * replace (idx - pos) with (S (idx - S pos)) by lia. exact Hdrop.
      * intros [|k] c Hk Hc; cbn in Hc.
        -- injection Hc as <-. by apply IsFinished_true.
        -- eapply (Hfinished k); [lia | exact Hc].
    + exec_inv. cbn [fst snd] in *.
      split; [reflexivity|]. split; [lia|]. split; [cbn [length]; lia|].
      split; [reflexivity|]. split.
      * replace (idx - idx) with 0 by lia. reflexivity.
      * intros k c Hk. lia.
  - apply bind_Ok in H. destruct H as ([[lr ir] dr] & t1 & t2 & Hrest & H & ->).
    exec_inv. cbn [fst snd] in *.
    destruct (IH _ _ _ _ _ _ _ Hrest) as (Hlen & Hlo & Hhi & Htake & Hdrop & Hfinished).
    split; [cbn [length]; lia|]. split; [lia|]. split; [cbn [length]; lia|].
    split; [cbn [take]; by rewrite Htake|]. split.
    + replace (idx - pos) with (S (idx - S pos)) by lia. exact Hdrop.
    + intros [|k] c Hk Hc; [lia|]. cbn in Hc.
      eapply (Hfinished k); [lia | exact Hc].
Qed.

(** X11. An update of a sequence keeps the number of children, never moves
    the cursor back and never moves it past the end; the children before
    the old cursor and those behind the new cursor are left exactly as they
    were, and every child the cursor has passed is finished. *)
Theorem ActionQueue_Update_cursor (env : Env) (b : Base) (l : list Action) (i : nat)
    (intervalTime : Q) (a' : Action) (left : Q) (t : Trace) :
  Update env (b, ActionQueue l i) intervalTime = Ok (a', left) t ->
  exists l' i',
    a'.2 = ActionQueue l' i' /\
    length l' = length l /\
    i <= i' /\
    (i <= length l -> i' <= length l) /\
    take i l' = take i l /\
    drop (S i') l' = drop (S i') l /\
    (forall k c, i <= k < i' -> l' !! k = Some c -> status c = ST.FINISHED).
Proof.
  unfold Update. cbn [fst snd]. rewrite Update_ActionQueue. intros H.
  apply bind_Ok in H. destruct H as ([[l' i'] dt'] & t1 & t2 & Hloop & H & ->).
  unfold Action_Update, UpdateStatus in H. cbn [fst snd] in H. exec_inv.
  apply ActionQueue_loop_cursor_bounds in Hloop.
  destruct Hloop as (Hlen & Hlo & Hhi & Htake & Hdrop & Hfinished).
  rewrite Nat.sub_0_r in *. cbn [Nat.add] in *.
  exists l', i'. repeat split; auto.
Qed.

Lemma ActionQueue_Update_cursor_witness :
  exists l' i',
    ActionQueue [(mkBase ST.FINISHED [], ActionFunction 1 true);
                 (mkBase ST.RUNNING [], ActionWaitForTime 3 2 false);
                 new_ActionFunction [] 2] 1 = ActionQueue l' i' /\
    length l' = 3 /\
    0 <= i' /\
    (0 <= 3 -> i' <= 3) /\
    take 0 l' = take 0 [new_ActionFunction [] 1; new_ActionWaitForTime [] 3;
                        new_ActionFunction [] 2] /\
    drop (S i') l' = drop (S i') [new_ActionFunction [] 1; new_ActionWaitForTime [] 3;
                                  new_ActionFunction [] 2] /\
    (forall k c, 0 <= k < i' -> l' !! k = Some c -> status c = ST.FINISHED).
Proof.
  apply (ActionQueue_Update_cursor env0 (mkBase ST.RUNNING [])
           [new_ActionFunction [] 1; new_ActionWaitForTime [] 3; new_ActionFunction [] 2]
           0 2
           (mkBase ST.RUNNING [],
            ActionQueue [(mkBase ST.FINISHED [], ActionFunction 1 true);
                         (mkBase ST.RUNNING [], ActionWaitForTime 3 2 false);
                         new_ActionFunction [] 2] 1)
           (2 - 2)%Q [Invoke 1]).
  vm_compute. reflexivity.
Defined.

(** ** A sequence of function actions *)

Lemma invoked_app t1 t2 : invoked (t1 ++ t2) = invoked t1 ++ invoked t2.
Proof. apply omap_app. Qed.

Lemma invoked_relocate i t : invoked (map (relocate i) t) = invoked t.
Proof.
  induction t as [|[p f e|f] t IH];
    [reflexivity | exact IH | exact (f_equal (cons f) IH)].
Qed.

Lemma invoked_notifications p obs e : invoked (map (fun f => Notify p f e) obs) = [].
Proof. induction obs as [|f obs IH]; [reflexivity | exact IH]. Qed.

Lemma ActionQueue_body_function env obs f dt :
  gtb dt 0 = true ->
  ActionQueue_body (Update_ env) false (new_ActionFunction obs f) dt =
  Ok ((mkBase ST.FINISHED obs, ActionFunction f true), dt)
     (notifications [] obs EV.STARTED ++ [Invoke f] ++ notifications [] obs EV.FINISHED).
Proof.
  intros Hgt. unfold ActionQueue_body. cbn -[gtb]. rewrite Hgt. cbn.
  by rewrite !app_nil_r.
Qed.

Lemma ActionQueue_loop_functions env (ps : list (list nat * nat)) dt :
  gtb dt 0 = true ->
  forall pos, exists t,
    ActionQueue_loop (Update_ env) false
      (map (fun p => new_ActionFunction p.1 p.2) ps) 0 pos dt =
    Ok (map (fun p => (mkBase ST.FINISHED p.1, ActionFunction p.2 true)) ps,
        pos + length ps, dt) t /\
    invoked t = ps.*2.
Proof.
  intros Hgt. induction ps as [|[obs f] ps IH]; intros pos.
  - exists []. split; [|reflexivity]. cbn. by rewrite Nat.add_0_r.
  - destruct (IH (S pos)) as (t & Hloop & Ht).
    eexists. split.
    + cbn [map ActionQueue_loop fst snd]. rewrite (ActionQueue_body_function env obs f dt Hgt).
      cbn [in_child bind fst snd IsFinished _status ST.eqb]. rewrite Hloop.
      cbn [bind ret fst snd length]. replace (S pos + length ps) with (pos + S (length ps)) by lia.
      reflexivity.
    + rewrite !invoked_app, invoked_relocate, !invoked_app, !app_nil_r.
      unfold notifications. rewrite !invoked_notifications, Ht. reflexivity.
Qed.

(** X12. A started sequence of any number of new function actions, updated
    once with a positive [intervalTime], calls all the callbacks in the order
    of the children, finishes every child and itself, ends with the cursor
    behind the last child and returns the whole [intervalTime]. *)
Theorem ActionQueue_runs_all_functions (env : Env) (obs : list nat)
    (ps : list (list nat * nat)) (intervalTime : Q) :
  (0 < intervalTime)%Q ->
  exists t,
    (q <- Start (new_ActionQueue obs (map (fun p => new_ActionFunction p.1 p.2) ps)) ;;
     Update env q intervalTime) =
    Ok ((mkBase ST.FINISHED obs,
         ActionQueue (map (fun p => (mkBase ST.FINISHED p.1, ActionFunction p.2 true)) ps)
                     (length ps)), intervalTime) t /\
    invoked t = ps.*2.
Proof.
  intros Hpos. apply gtb_true in Hpos.
  destruct (ActionQueue_loop_functions env ps intervalTime Hpos 0) as (t & Hloop & Ht).
  eexists. split.
  - unfold Start, new_ActionQueue, new_Action, Update.
    cbn [fst snd Action_Start _status ST.eqb set_status _OnEventFuncs].
    unfold _OnEvent, emit. cbn [bind ret fst snd].
    rewrite Update_ActionQueue. cbn [IsPaused _status ST.eqb set_status]. rewrite Hloop.
    cbn [bind fst snd Nat.add]. unfold Action_Update, UpdateStatus.
    cbn [fst snd IsDone]. rewrite length_map, Nat.leb_refl.
    cbn [Action_UpdateStatus set_status _OnEventFuncs]. unfold _OnEvent, emit.
    cbn [bind ret _OnEventFuncs]. reflexivity.
  - rewrite !invoked_app, !invoked_notifications, Ht. cbn. by rewrite !app_nil_r.
Qed.

Lemma ActionQueue_runs_all_functions_witness :
  exists t,
    (q <- Start (new_ActionQueue [9] (map (fun p => new_ActionFunction p.1 p.2)
                                          [([1], 10); ([], 11); ([2], 12)])) ;;
     Update env0 q (1 # 3)) =
    Ok ((mkBase ST.FINISHED [9],
         ActionQueue (map (fun p => (mkBase ST.FINISHED p.1, ActionFunction p.2 true))
                          [([1], 10); ([], 11); ([2], 12)])
                     (length [([1], 10); ([], 11); ([2], 12)])), (1 # 3)%Q) t /\
    invoked t = [([1], 10); ([], 11); ([2], 12)].*2.
Proof.
  apply (ActionQueue_runs_all_functions env0 [9] [([1], 10); ([], 11); ([2], 12)] (1 # 3)).
  reflexivity.
Defined.

(** ** Leftover time *)

Lemma Qmax_gtb (m x : Q) : Qmax m x = if gtb x m then x else m.
Proof.
  unfold Qmax, GenericMinMax.gmax, gtb. rewrite <- (Qcompare_antisym x m).
  destruct (x ?= m)%Q; reflexivity.
Qed.

Lemma ActionWaitAny_round_leftover env b d intervalTime m r t :
  (b1 <- (if IsInit b then Action_Start b else ret b) ;;
   if IsRunning b1 then
     u <- Update_ env b1 d intervalTime ;;
     ret (u.1, if gtb u.2 m then u.2 else m)
   else ret ((b1, d), m)) = Ok r t ->
  match advanced_leftover env intervalTime (b, d) with
  | Some x => r.2 = Qmax m x
  | None => r.2 = m
  end.
Proof.
  unfold advanced_leftover, Start, Update. simpl. intros H.
  destruct (IsInit b).
  - destruct (Action_Start_Ok b) as (b1 & t1 & Hb). rewrite Hb in *. simpl in *.
    destruct (IsRunning b1).
    + destruct (Update_ env b1 d intervalTime) as [u tu|]; unfold ret in *; simpl in *; exec_inv.
      simpl. symmetry. apply Qmax_gtb.
    + unfold ret in *; simpl in *. exec_inv. reflexivity.
  - simpl in *. destruct (IsRunning b).
    + destruct (Update_ env b d intervalTime) as [u tu|]; unfold ret in *; simpl in *; exec_inv.
      simpl. symmetry. apply Qmax_gtb.
    + unfold ret in *; simpl in *. exec_inv. reflexivity.
Qed.

Lemma ActionWaitAny_loop_max env l pos intervalTime m r t :
  ActionWaitAny_loop (Update_ env) l pos intervalTime m = Ok r t ->
  r.2 = fold_left Qmax (omap (advanced_leftover env intervalTime) l) m.
Proof.
  revert pos m r t. induction l as [|[b d] l IH]; intros pos m r t H; simpl in H.
  - exec_inv. reflexivity.
  - apply bind_Ok in H. destruct H as (r0 & t1 & t2 & E1 & E2 & ->).
    apply in_child_Ok in E1. destruct E1 as (t0 & Hr & ->).
    apply ActionWaitAny_round_leftover in Hr.
    exec_inv. cbn [snd]. erewrite IH by eassumption.
    cbn [omap list_omap]. destruct (advanced_leftover env intervalTime (b, d)); simpl;
      by rewrite Hr.
Qed.

(** X13. An update of a WaitAny returns the maximum, seeded at 0, of the
    leftovers of the children it advanced (those that are running once the
    ones in [INIT] are started). *)
Theorem ActionWaitAny_leftover_max (env : Env) (b : Base) (l : list Action)
    (intervalTime : Q) (a' : Action) (left : Q) (t : Trace) :
  Update env (b, ActionWaitAny l) intervalTime = Ok (a', left) t ->
  left = max_seeded_at_0 (omap (advanced_leftover env intervalTime) l).
Proof.
  unfold Update. cbn [fst snd]. rewrite Update_ActionWaitAny. intros H.
  apply bind_Ok in H. destruct H as (r & t1 & t2 & Hloop & Hupd & ->).
  apply ActionWaitAny_loop_max in Hloop.
  unfold Action_Update in Hupd. exec_inv. exact Hloop.
Qed.

Lemma ActionWaitAny_leftover_max_witness :
  (1 # 2)%Q =
  max_seeded_at_0
    (omap (advanced_leftover env0 (3 # 2))
       [new_ActionWaitForTime [] 1; new_ActionWaitForTime [] 2;
        (mkBase ST.PAUSED [], ActionFunction 1 false)]).
Proof.
  apply (ActionWaitAny_leftover_max env0 (mkBase ST.RUNNING [])
           [new_ActionWaitForTime [] 1; new_ActionWaitForTime [] 2;
            (mkBase ST.PAUSED [], ActionFunction 1 false)] (3 # 2)
           (mkBase ST.FINISHED [],
            ActionWaitAny [(mkBase ST.FINISHED [], ActionWaitForTime 1 1 true);
                           (mkBase ST.CANCELED [], ActionWaitForTime 2 (3 # 2) false);
                           (mkBase ST.CANCELED [], ActionFunction 1 false)])
           (1 # 2) []).
  vm_compute. reflexivity.
Defined.

(** ** When a timer and a checker finish *)

(** X16. A running timer that has accumulated [delayedTime] is updated any
    number of times: it is finished afterwards exactly when, at one of the
    updates, the accumulated time plus the step, as added in [double], has
    reached its duration, and it is running otherwise. *)
Theorem timer_finishes_at_duration (b : Base) (waitTime delayedTime : double)
    (done : bool) (deltas : list double) :
  IsRunning b = true ->
  exists r t,
    updates64 deltas (b, mkActionWaitForTime64 waitTime delayedTime done) = Ok r t /\
    (_status r.1.1 = ST.FINISHED <->
     Exists (fun s => binary64.geb s waitTime = true) (accumulated delayedTime deltas)) /\
    (_status r.1.1 = ST.FINISHED \/ _status r.1.1 = ST.RUNNING).
Proof. apply updates64_finished. Qed.

(** Ten steps of 0.1 leave a timer of 1 running: the tenth sum is below 1. *)
Lemma timer_finishes_at_duration_witness :
  exists r t,
    updates64 (repeat (binary64.decimal 1 1) 10)
      (mkBase ST.RUNNING [4], mkActionWaitForTime64 (binary64.of_Z 1) binary64.zero false) =
      Ok r t /\
    _status r.1.1 = ST.RUNNING.
Proof.
  destruct (timer_finishes_at_duration (mkBase ST.RUNNING [4]) (binary64.of_Z 1)
              binary64.zero false (repeat (binary64.decimal 1 1) 10))
    as (r & t & Hrun & Hiff & Hst); [reflexivity|].
  exists r, t. split; [exact Hrun|]. destruct Hst as [Hst|Hst]; [|exact Hst].
  apply Hiff, Exists_exists in Hst. destruct Hst as (s & Hin & Hs).
  cbn [repeat accumulated] in Hin. rewrite !elem_of_cons in Hin.
  exfalso. repeat (destruct Hin as [->|Hin]; [vm_compute in Hs; discriminate Hs|]).
  inversion Hin.
Defined.

Lemma checker_Update_running env b var value done dt :
  IsRunning b = true ->
  Update env (b, ActionChecker var value done) dt =
  if (env var =? value)%Z then
    Ok ((set_status ST.FINISHED b, ActionChecker var value true), dt)
       (notifications [] (_OnEventFuncs b) EV.FINISHED)
  else Ok ((b, ActionChecker var value false), 0%Q) [].
Proof.
  intros Hb. unfold Update. cbn [Update_ fst snd]. rewrite Hb. cbn [negb].
  destruct (env var =? value)%Z; cbn; by rewrite ?app_nil_r.
Qed.

Lemma checker_updates_idle (steps : list (Env * Q)) b var value done a' t :
  IsRunning b = false ->
  run_ops (map (fun p => OpUpdate p.1 p.2) steps) (b, ActionChecker var value done) = Ok a' t ->
  a' = (b, ActionChecker var value done).
Proof.
  intros Hb. revert a' t. induction steps as [|[env dt] steps IH]; intros a' t H;
    cbn [map run_ops] in H.
  - by exec_inv.
  - cbn [run_op fst snd] in H. unfold Update in H. cbn [Update_ fst snd] in H.
    rewrite Hb in H. cbn [negb bind ret fst] in H.
    destruct (run_ops _ _) as [a1 t1|] eqn:E; [|discriminate].
    injection H as <- _. by eapply IH.
Qed.

(** X17. A running checker is updated any number of times while the host
    program changes the watched variable: it is finished afterwards exactly
    when the variable had the target value at one of the updates, and it is
    running otherwise. *)
Theorem checker_finishes_iff (b : Base) (var : nat) (value : Z) (done : bool)
    (steps : list (Env * Q)) (a' : Action) (t : Trace) :
  IsRunning b = true ->
  steps <> [] ->
  run_ops (map (fun p => OpUpdate p.1 p.2) steps) (b, ActionChecker var value done) = Ok a' t ->
  (status a' = ST.FINISHED <-> Exists (fun p => p.1 var = value) steps) /\
  (status a' = ST.FINISHED \/ status a' = ST.RUNNING).
Proof.
  intros Hb. revert done a' t.
  induction steps as [|[env dt] steps IH]; intros done a' t Hne H; [congruence|].
  cbn [map run_ops run_op fst snd] in H.
  rewrite (checker_Update_running env b var value done dt Hb) in H.
  destruct (env var =? value)%Z eqn:Heq.
  - apply Z.eqb_eq in Heq. cbn [bind ret fst] in H.
    destruct (run_ops _ _) as [a1 t1|] eqn:E; [|discriminate].
    injection H as <- _. apply checker_updates_idle in E; [|reflexivity]. subst a1.
    split; [|by left]. split; [intros _; by left | reflexivity].
  - apply Z.eqb_neq in Heq. cbn [bind ret fst] in H.
    destruct (run_ops _ _) as [a1 t1|] eqn:E; [|discriminate].
    injection H as <- _.
    destruct steps as [|s steps'].
    + cbn [map run_ops] in E. exec_inv. unfold status. cbn [fst].
      apply IsRunning_true in Hb. rewrite Hb. split; [|by right].
      split; [discriminate|]. intros Hex. apply Exists_cons in Hex.
      destruct Hex as [Hex|Hex]; [by cbn in Hex | inversion Hex].
    + destruct (IH false a1 t1) as [Hiff Hst]; [discriminate | exact E |].
      split; [|exact Hst]. rewrite Hiff. split.
      * intros Hex. by right.
      * intros Hex. apply Exists_cons in Hex. destruct Hex as [Hex|Hex]; [by cbn in Hex | exact Hex].
Qed.

Lemma checker_finishes_iff_witness :
  (ST.FINISHED = ST.FINISHED <->
   Exists (fun p : Env * Q => p.1 7 = 3%Z)
     [((fun _ => 0%Z) : Env, 1%Q); ((fun _ => 3%Z) : Env, 1%Q); ((fun _ => 0%Z) : Env, 1%Q)]) /\
  (ST.FINISHED = ST.FINISHED \/ ST.FINISHED = ST.RUNNING).
Proof.
  apply (checker_finishes_iff (mkBase ST.RUNNING [4]) 7 3 false
           [((fun _ => 0%Z) : Env, 1%Q); ((fun _ => 3%Z) : Env, 1%Q); ((fun _ => 0%Z) : Env, 1%Q)]
           (mkBase ST.FINISHED [4], ActionChecker 7 3 true)
           [Notify [] 4 EV.FINISHED]).
  - reflexivity.
  - discriminate.
  - reflexivity.
Defined.

(** ** Pause, then Resume *)

Lemma Action_Pause_Resume b b1 t1 :
  IsPaused b = false ->
  Action_Pause b = Ok b1 t1 ->
  exists t2, Action_Resume b1 = Ok b t2.
Proof.
  destruct b as [[] obs]; cbn; intros Hp H; try discriminate Hp; exec_inv; cbn; eauto.
Qed.

Lemma at_index_Pause_Resume (l : list Action) :
  Forall (fun c : Action =>
            forall b a1 t1, none_paused b c.2 = true -> Pause_ b c.2 = Ok a1 t1 ->
                            exists t2, Resume_ a1.1 a1.2 = Ok (b, c.2) t2) l ->
  forallb (fun a : Action => none_paused a.1 a.2) l = true ->
  forall pos i l1 t1,
    at_index (fun a => Pause_ a.1 a.2) pos l i = Ok l1 t1 ->
    exists t2, at_index (fun a => Resume_ a.1 a.2) pos l1 i = Ok l t2.
Proof.
  induction 1 as [|[bc dc] l Hc _ IH]; intros Hn pos [|i] l1 t1 H; cbn [at_index] in H;
    [exec_inv | exec_inv | |];
    cbn [forallb] in Hn; apply andb_true_iff in Hn; destruct Hn as [Hnc Hnl].
  - apply bind_Ok in H. destruct H as (c1 & t3 & t4 & Hp & H & ->).
    apply in_child_Ok in Hp. destruct Hp as (t0 & Hp & ->). exec_inv.
    cbn [fst snd] in *. destruct (Hc _ _ _ Hnc Hp) as (t2 & Hr).
    eexists. cbn [at_index]. rewrite Hr. cbn. reflexivity.
  - apply bind_Ok in H. destruct H as (l2 & t3 & t4 & Hp & H & ->). exec_inv.
    destruct (IH Hnl _ _ _ _ Hp) as (t2 & Hr).
    eexists. cbn [at_index]. rewrite Hr. cbn. reflexivity.
Qed.

Lemma for_each_Pause_Resume (l : list Action) :
  Forall (fun c : Action =>
            forall b a1 t1, none_paused b c.2 = true -> Pause_ b c.2 = Ok a1 t1 ->
                            exists t2, Resume_ a1.1 a1.2 = Ok (b, c.2) t2) l ->
  forallb (fun a : Action => none_paused a.1 a.2) l = true ->
  forall pos l1 t1,
    for_each (fun a => Pause_ a.1 a.2) pos l = Ok l1 t1 ->
    exists t2, for_each (fun a => Resume_ a.1 a.2) pos l1 = Ok l t2.
Proof.
  induction 1 as [|[bc dc] l Hc _ IH]; intros Hn pos l1 t1 H; cbn [for_each] in H;
    cbn [forallb] in Hn.
  - exec_inv. eexists. reflexivity.
  - apply andb_true_iff in Hn. destruct Hn as [Hnc Hnl].
    apply bind_Ok in H. destruct H as (c1 & t3 & t4 & Hp & H & ->).
    apply in_child_Ok in Hp. destruct Hp as (t0 & Hp & ->).
    apply bind_Ok in H. destruct H as (l2 & t5 & t6 & Hl & H & ->). exec_inv.
    cbn [fst snd] in *. destruct (Hc _ _ _ Hnc Hp) as (t2 & Hr).
    destruct (IH Hnl _ _ _ Hl) as (t7 & Hrl).
    eexists. cbn [for_each]. rewrite Hr. cbn [in_child bind]. rewrite Hrl. cbn. reflexivity.
Qed.

Lemma Pause_Resume_ d :
  forall b a1 t1,
    none_paused b d = true -> Pause_ b d = Ok a1 t1 ->
    exists t2, Resume_ a1.1 a1.2 = Ok (b, d) t2.
Proof.
  induction d as [l i IH|l IH|l IH|v x dn|w e dn|f dn] using Derived_nested_ind;
    intros b a1 t1 Hn H; cbn [none_paused] in Hn; apply andb_true_iff in Hn;
    destruct Hn as [Hb Hn]; apply negb_true_iff in Hb; cbn [Pause_] in H;
    apply bind_Ok in H; destruct H as (b1 & t3 & t4 & Hp & H & ->);
    destruct (Action_Pause_Resume _ _ _ Hb Hp) as (t2 & Hr).
  - apply bind_Ok in H. destruct H as (l1 & t5 & t6 & Hl & H & ->). exec_inv.
    destruct (at_index_Pause_Resume l IH Hn _ _ _ _ Hl) as (t7 & Hrl).
    eexists. cbn [fst snd Resume_]. rewrite Hr. cbn [bind]. rewrite Hrl. cbn. reflexivity.
  - apply bind_Ok in H. destruct H as (l1 & t5 & t6 & Hl & H & ->). exec_inv.
    destruct (for_each_Pause_Resume l IH Hn _ _ _ Hl) as (t7 & Hrl).
    eexists. cbn [fst snd Resume_]. rewrite Hr. cbn [bind]. rewrite Hrl. cbn. reflexivity.
  - apply bind_Ok in H. destruct H as (l1 & t5 & t6 & Hl & H & ->). exec_inv.
    destruct (for_each_Pause_Resume l IH Hn _ _ _ Hl) as (t7 & Hrl).
    eexists. cbn [fst snd Resume_]. rewrite Hr. cbn [bind]. rewrite Hrl. cbn. reflexivity.
  - exec_inv. eexists. cbn [fst snd Resume_]. rewrite Hr. cbn. reflexivity.
  - exec_inv. eexists. cbn [fst snd Resume_]. rewrite Hr. cbn. reflexivity.
  - exec_inv. eexists. cbn [fst snd Resume_]. rewrite Hr. cbn. reflexivity.
Qed.

(** X18. On a tree in which no action is paused, a [Pause] that returns is
    undone by [Resume]: the tree is exactly as it was before the pause. *)
Theorem Pause_Resume_round_trip (a a1 : Action) (t1 : Trace) :
  none_paused a.1 a.2 = true ->
  Pause a = Ok a1 t1 ->
  exists t2, Resume a1 = Ok a t2.
Proof.
  destruct a as [b d]. unfold Pause, Resume. cbn [fst snd]. apply Pause_Resume_.
Qed.

Lemma Pause_Resume_round_trip_witness :
  exists t2,
    Resume (mkBase ST.PAUSED [9],
            ActionWaitAll [(mkBase ST.PAUSED [],
                            ActionQueue [(mkBase ST.FINISHED [], ActionFunction 1 true);
                                         (mkBase ST.PAUSED [5], ActionWaitForTime 2 1 false)] 1);
                           new_ActionFunction [] 2]) =
    Ok (mkBase ST.RUNNING [9],
        ActionWaitAll [(mkBase ST.RUNNING [],
                        ActionQueue [(mkBase ST.FINISHED [], ActionFunction 1 true);
                                     (mkBase ST.RUNNING [5], ActionWaitForTime 2 1 false)] 1);
                       new_ActionFunction [] 2]) t2.
Proof.
  apply (Pause_Resume_round_trip
           (mkBase ST.RUNNING [9],
            ActionWaitAll [(mkBase ST.RUNNING [],
                            ActionQueue [(mkBase ST.FINISHED [], ActionFunction 1 true);
                                         (mkBase ST.RUNNING [5], ActionWaitForTime 2 1 false)] 1);
                           new_ActionFunction [] 2])
           (mkBase ST.PAUSED [9],
            ActionWaitAll [(mkBase ST.PAUSED [],
                            ActionQueue [(mkBase ST.FINISHED [], ActionFunction 1 true);
                                         (mkBase ST.PAUSED [5], ActionWaitForTime 2 1 false)] 1);
                           new_ActionFunction [] 2])
           [Notify [] 9 EV.PAUSED; Notify [0; 1] 5 EV.PAUSED]).
  - reflexivity.
  - reflexivity.
Defined.

(** ** Out-of-range access through a finished sequence *)

Lemma for_each_Fault f pos (l : list Action) c :
  c ∈ l -> f c = Fault -> for_each f pos l = Fault.
Proof.
  intros Hin Hf. revert pos. induction l as [|a l IH]; intros pos; [inversion Hin|].
  cbn [for_each]. apply elem_of_cons in Hin. destruct Hin as [->|Hin].
  - rewrite Hf. reflexivity.
  - destruct (in_child pos (f a)) as [a' t|]; [|reflexivity].
    cbn [bind]. rewrite (IH Hin). reflexivity.
Qed.

Lemma done_queue_faults b (l : list Action) i :
  length l <= i ->
  Pause_ b (ActionQueue l i) = Fault /\
  Resume_ b (ActionQueue l i) = Fault /\
  Stop_ b (ActionQueue l i) = Fault.
Proof.
  intros Hi. apply lookup_ge_None in Hi.
  simpl. rewrite !at_index_lookup, Hi.
  destruct (Action_Pause_Ok b) as (? & ? & ->).
  destruct (Action_Resume_Ok b) as (? & ? & ->).
  destruct (Action_Stop_Ok b) as (? & ? & E). unfold Action_Stop in E. simpl in E.
  repeat split.
Qed.

(** X19. A WaitAny or WaitAll that holds a sequence whose cursor is behind
    its last child (a sequence that is done, or empty) cannot be paused,
    resumed or stopped: the call is forwarded to that sequence, which
    indexes past the end of its child list. *)
Theorem parallel_with_done_queue_faults (b : Base) (l : list Action)
    (bc : Base) (lc : list Action) (i : nat) :
  (bc, ActionQueue lc i) ∈ l ->
  length lc <= i ->
  Pause (b, ActionWaitAll l) = Fault /\ Resume (b, ActionWaitAll l) = Fault /\
  Stop (b, ActionWaitAll l) = Fault /\
  Pause (b, ActionWaitAny l) = Fault /\ Resume (b, ActionWaitAny l) = Fault /\
  Stop (b, ActionWaitAny l) = Fault.
Proof.
  intros Hin Hi. destruct (done_queue_faults bc lc i Hi) as (HP & HR & HS).
  unfold Pause, Resume, Stop. cbn [fst snd Pause_ Resume_ Stop_].
  rewrite (for_each_Fault (fun a => Pause_ a.1 a.2) 0 l _ Hin HP).
  rewrite (for_each_Fault (fun a => Resume_ a.1 a.2) 0 l _ Hin HR).
  rewrite (for_each_Fault (fun a => Stop_ a.1 a.2) 0 l _ Hin HS).
  destruct (Action_Pause_Ok b) as (? & ? & ->).
  destruct (Action_Resume_Ok b) as (? & ? & ->).
  destruct (Action_Stop_Ok b) as (? & ? & ->).
  repeat split.
Qed.

Lemma parallel_with_done_queue_faults_witness :
  Pause (mkBase ST.RUNNING [9],
         ActionWaitAll [(mkBase ST.FINISHED [],
                         ActionQueue [(mkBase ST.FINISHED [], ActionFunction 1 true)] 1);
                        (mkBase ST.RUNNING [], ActionWaitForTime 5 1 false)]) = Fault.
Proof.
  apply (parallel_with_done_queue_faults (mkBase ST.RUNNING [9])
           [(mkBase ST.FINISHED [],
             ActionQueue [(mkBase ST.FINISHED [], ActionFunction 1 true)] 1);
            (mkBase ST.RUNNING [], ActionWaitForTime 5 1 false)]
           (mkBase ST.FINISHED []) [(mkBase ST.FINISHED [], ActionFunction 1 true)] 1).
  - left.
  - simpl. lia.
Defined.

(** X20. The update that finishes a sequence leaves its cursor behind the
    last child, so a [Pause], [Resume] or [Stop] of that sequence right
    after it indexes past the end of the child list. *)
Theorem finished_queue_faults (env : Env) (b : Base) (l : list Action) (i : nat)
    (intervalTime : Q) (a' : Action) (left : Q) (t : Trace) :
  Update env (b, ActionQueue l i) intervalTime = Ok (a', left) t ->
  _status b <> ST.FINISHED ->
  status a' = ST.FINISHED ->
  IsDone a'.2 = true /\ Pause a' = Fault /\ Resume a' = Fault /\ Stop a' = Fault.
Proof.
  unfold Update. cbn [fst snd]. rewrite Update_ActionQueue. intros H Hb Hfin.
  apply bind_Ok in H. destruct H as ([[l' i'] dt'] & t1 & t2 & _ & H & ->).
  unfold Action_Update, UpdateStatus in H. cbn [fst snd] in H.
  apply bind_Ok in H. destruct H as (a1 & t3 & t4 & HU & H & ->). exec_inv.
  apply Action_UpdateStatus_cases in E.
  destruct E as [(Hdone & -> & _)|(_ & -> & _)].
  - split; [exact Hdone|]. cbn [IsDone] in Hdone. apply Nat.leb_le in Hdone.
    unfold Pause, Resume, Stop. cbn [fst snd]. by apply done_queue_faults.
  - unfold status in Hfin. cbn [fst] in Hfin. congruence.
Qed.

Lemma finished_queue_faults_witness :
  IsDone (ActionQueue [(mkBase ST.FINISHED [], ActionFunction 1 true)] 1) = true /\
  Pause (mkBase ST.FINISHED [9],
         ActionQueue [(mkBase ST.FINISHED [], ActionFunction 1 true)] 1) = Fault /\
  Resume (mkBase ST.FINISHED [9],
          ActionQueue [(mkBase ST.FINISHED [], ActionFunction 1 true)] 1) = Fault /\
  Stop (mkBase ST.FINISHED [9],
        ActionQueue [(mkBase ST.FINISHED [], ActionFunction 1 true)] 1) = Fault.
Proof.
  apply (finished_queue_faults env0 (mkBase ST.RUNNING [9]) [new_ActionFunction [] 1] 0 1
           (mkBase ST.FINISHED [9],
            ActionQueue [(mkBase ST.FINISHED [], ActionFunction 1 true)] 1)
           1 [Invoke 1; Notify [] 9 EV.FINISHED]).
  - reflexivity.
  - discriminate.
  - reflexivity.
Defined.

(** ** Trees without sequences never index out of range *)

Lemma for_each_total (g : Action -> bool) f (l : list Action) :
  Forall (fun c => exists c' t, f c = Ok c' t /\ g c' = true) l ->
  forall pos, exists l' t, for_each f pos l = Ok l' t /\ forallb g l' = true.
Proof.
  induction 1 as [|c l (c' & tc & Hc & Hg) _ IH]; intros pos.
  - exists [], []. split; reflexivity.
  - destruct (IH (S pos)) as (l' & t & Hl & Hgl).
    eexists (c' :: l'), _. split.
    + cbn [for_each]. rewrite Hc. cbn [in_child bind]. rewrite Hl. reflexivity.
    + cbn [forallb]. by rewrite Hg, Hgl.
Qed.

Lemma queue_free_children (Q : Action -> Prop) (l : list Action) :
  Forall (fun a : Action => queue_free a.2 = true -> Q a) l ->
  forallb (fun a : Action => queue_free a.2) l = true ->
  Forall Q l.
Proof.
  induction 1 as [|c l Hc _ IH]; intros Hq; [constructor|].
  cbn [forallb] in Hq. apply andb_true_iff in Hq. destruct Hq as [Hqc Hql].
  constructor; auto.
Qed.

Lemma Pause_queue_free d :
  queue_free d = true ->
  forall b, exists a' t, Pause_ b d = Ok a' t /\ queue_free a'.2 = true.
Proof.
  induction d as [l i IH|l IH|l IH|v x dn|w e dn|f dn] using Derived_nested_ind;
    intros Hq b; cbn [queue_free] in Hq; try discriminate Hq;
    destruct (Action_Pause_Ok b) as (b' & tb & Hb); cbn [Pause_]; rewrite Hb; cbn [bind];
    try (eexists _, _; split; reflexivity).
  - destruct (for_each_total (fun a => queue_free a.2) (fun a => Pause_ a.1 a.2) l) with (pos := 0)
      as (l' & t & Hl & Hql).
    { eapply queue_free_children; [|exact Hq]. eapply Forall_impl; [exact IH|].
      intros c Hc Hqc. apply Hc, Hqc. }
    rewrite Hl. eexists _, _. split; [reflexivity | exact Hql].
  - destruct (for_each_total (fun a => queue_free a.2) (fun a => Pause_ a.1 a.2) l) with (pos := 0)
      as (l' & t & Hl & Hql).
    { eapply queue_free_children; [|exact Hq]. eapply Forall_impl; [exact IH|].
      intros c Hc Hqc. apply Hc, Hqc. }
    rewrite Hl. eexists _, _. split; [reflexivity | exact Hql].
Qed.

Lemma Resume_queue_free d :
  queue_free d = true ->
  forall b, exists a' t, Resume_ b d = Ok a' t /\ queue_free a'.2 = true.
Proof.
  induction d as [l i IH|l IH|l IH|v x dn|w e dn|f dn] using Derived_nested_ind;
    intros Hq b; cbn [queue_free] in Hq; try discriminate Hq;
    destruct (Action_Resume_Ok b) as (b' & tb & Hb); cbn [Resume_]; rewrite Hb; cbn [bind];
    try (eexists _, _; split; reflexivity).
  - destruct (for_each_total (fun a => queue_free a.2) (fun a => Resume_ a.1 a.2) l) with (pos := 0)
      as (l' & t & Hl & Hql).
    { eapply queue_free_children; [|exact Hq]. eapply Forall_impl; [exact IH|].
      intros c Hc Hqc. apply Hc, Hqc. }
    rewrite Hl. eexists _, _. split; [reflexivity | exact Hql].
  - destruct (for_each_total (fun a => queue_free a.2) (fun a => Resume_ a.1 a.2) l) with (pos := 0)
      as (l' & t & Hl & Hql).
    { eapply queue_free_children; [|exact Hq]. eapply Forall_impl; [exact IH|].
      intros c Hc Hqc. apply Hc, Hqc. }
    rewrite Hl. eexists _, _. split; [reflexivity | exact Hql].
Qed.

Lemma Stop_queue_free d :
  queue_free d = true ->
  forall b, exists a' t, Stop_ b d = Ok a' t /\ queue_free a'.2 = true.
Proof.
  induction d as [l i IH|l IH|l IH|v x dn|w e dn|f dn] using Derived_nested_ind;
    intros Hq b; cbn [queue_free] in Hq; try discriminate Hq;
    destruct (Action_Stop_Ok b) as (b' & tb & Hb); cbn [Stop_]; rewrite Hb; cbn [bind];
    try (eexists _, _; split; reflexivity).
  - destruct (for_each_total (fun a => queue_free a.2) (fun a => Stop_ a.1 a.2) l) with (pos := 0)
      as (l' & t & Hl & Hql).
    { eapply queue_free_children; [|exact Hq]. eapply Forall_impl; [exact IH|].
      intros c Hc Hqc. apply Hc, Hqc. }
    rewrite Hl. eexists _, _. split; [reflexivity | exact Hql].
  - destruct (for_each_total (fun a => queue_free a.2) (fun a => Stop_ a.1 a.2) l) with (pos := 0)
      as (l' & t & Hl & Hql).
    { eapply queue_free_children; [|exact Hq]. eapply Forall_impl; [exact IH|].
      intros c Hc Hqc. apply Hc, Hqc. }
    rewrite Hl. eexists _, _. split; [reflexivity | exact Hql].
Qed.

Lemma parallel_round_total env (c : Action) dt (pick : Q -> Q -> Q) m :
  (forall b dt, exists r t, Update_ env b c.2 dt = Ok r t /\ queue_free r.1.2 = true) ->
  queue_free c.2 = true ->
  exists r t,
    (b1 <- (if IsInit c.1 then Action_Start c.1 else ret c.1) ;;
     if IsRunning b1 then
       u <- Update_ env b1 c.2 dt ;; ret (u.1, pick u.2 m)
     else ret ((b1, c.2), m)) = Ok r t /\
    queue_free r.1.2 = true.
Proof.
  intros Hc Hq.
  assert (exists b1 t1, (if IsInit c.1 then Action_Start c.1 else ret c.1) = Ok b1 t1)
    as (b1 & t1 & ->).
  { destruct (IsInit c.1); [apply Action_Start_Ok | by eexists _, _]. }
  cbn [bind]. destruct (IsRunning b1).
  - destruct (Hc b1 dt) as (u & tu & -> & Hqu). cbn [bind ret fst snd].
    eexists _, _. split; [reflexivity | exact Hqu].
  - cbn [ret]. eexists _, _. split; [reflexivity | exact Hq].
Qed.

Lemma ActionWaitAny_loop_total env (l : list Action) :
  Forall (fun c : Action =>
            forall b dt, exists r t, Update_ env b c.2 dt = Ok r t /\
                                     queue_free r.1.2 = true) l ->
  forallb (fun a : Action => queue_free a.2) l = true ->
  forall pos dt m, exists r t,
    ActionWaitAny_loop (Update_ env) l pos dt m = Ok r t /\
    forallb (fun a : Action => queue_free a.2) r.1 = true.
Proof.
  induction 1 as [|c l Hc _ IH]; intros Hq pos dt m.
  - eexists _, _. split; reflexivity.
  - cbn [forallb] in Hq. apply andb_true_iff in Hq. destruct Hq as [Hqc Hql].
    destruct (parallel_round_total env c dt (fun x m => if gtb x m then x else m) m Hc Hqc)
      as (r0 & t0 & Hr0 & Hq0).
    destruct (IH Hql (S pos) dt r0.2) as (r' & t' & Hr' & Hq').
    eexists _, _. split.
    + cbn [ActionWaitAny_loop]. rewrite Hr0. cbn [in_child bind]. rewrite Hr'. reflexivity.
    + cbn [fst forallb]. by rewrite Hq0, Hq'.
Qed.

Lemma ActionWaitAll_loop_total env (l : list Action) :
  Forall (fun c : Action =>
            forall b dt, exists r t, Update_ env b c.2 dt = Ok r t /\
                                     queue_free r.1.2 = true) l ->
  forallb (fun a : Action => queue_free a.2) l = true ->
  forall pos dt m, exists r t,
    ActionWaitAll_loop (Update_ env) l pos dt m = Ok r t /\
    forallb (fun a : Action => queue_free a.2) r.1 = true.
Proof.
  induction 1 as [|c l Hc _ IH]; intros Hq pos dt m.
  - eexists _, _. split; reflexivity.
  - cbn [forallb] in Hq. apply andb_true_iff in Hq. destruct Hq as [Hqc Hql].
    destruct (parallel_round_total env c dt (fun x m => if ltb x m then x else m) m Hc Hqc)
      as (r0 & t0 & Hr0 & Hq0).
    destruct (IH Hql (S pos) dt r0.2) as (r' & t' & Hr' & Hq').
    eexists _, _. split.
    + cbn [ActionWaitAll_loop]. rewrite Hr0. cbn [in_child bind]. rewrite Hr'. reflexivity.
    + cbn [fst forallb]. by rewrite Hq0, Hq'.
Qed.

Lemma Action_UpdateStatus_Ok isDone b : exists b' t, Action_UpdateStatus isDone b = Ok b' t.
Proof. destruct isDone; cbn; eauto. Qed.

Lemma Update_queue_free env d :
  queue_free d = true ->
  forall b dt, exists r t, Update_ env b d dt = Ok r t /\ queue_free r.1.2 = true.
Proof.
  induction d as [l i IH|l IH|l IH|v x dn|w e dn|f dn] using Derived_nested_ind;
    intros Hq b dt; cbn [queue_free] in Hq; try discriminate Hq.
  - destruct (ActionWaitAny_loop_total env l) with (pos := 0) (dt := dt) (m := 0%Q)
      as (r & t & Hr & Hqr); [|exact Hq|].
    { eapply queue_free_children; [|exact Hq]. eapply Forall_impl; [exact IH|].
      intros c Hc Hqc. apply Hc, Hqc. }
    rewrite Update_ActionWaitAny, Hr. cbn [bind].
    unfold Action_Update, UpdateStatus, ActionWaitAny_UpdateStatus. cbn [fst snd].
    destruct (Action_UpdateStatus_Ok (IsDone (ActionWaitAny r.1)) b) as (b' & tb & ->).
    cbn [bind]. destruct (IsFinished b').
    + destruct (for_each_total (fun a => queue_free a.2)
                  (fun a => if negb (IsFinished a.1) then Stop a else ret a) r.1)
        with (pos := 0) as (l' & tl & Hl & Hql).
      { apply Forall_forall. intros c Hin.
        assert (Hqc : queue_free c.2 = true).
        { rewrite forallb_forall in Hqr. apply Hqr. by apply list_elem_of_In. }
        destruct (negb (IsFinished c.1)).
        - apply Stop_queue_free, Hqc.
        - by eexists _, _. }
      rewrite Hl. cbn [bind ret fst snd]. eexists _, _. split; [reflexivity | exact Hql].
    + cbn [bind ret fst snd]. eexists _, _. split; [reflexivity | exact Hqr].
  - destruct (ActionWaitAll_loop_total env l) with (pos := 0) (dt := dt) (m := 0%Q)
      as (r & t & Hr & Hqr); [|exact Hq|].
    { eapply queue_free_children; [|exact Hq]. eapply Forall_impl; [exact IH|].
      intros c Hc Hqc. apply Hc, Hqc. }
    rewrite Update_ActionWaitAll, Hr. cbn [bind].
    unfold Action_Update, UpdateStatus. cbn [fst snd].
    destruct (Action_UpdateStatus_Ok (IsDone (ActionWaitAll r.1)) b) as (b' & tb & ->).
    cbn [bind ret fst snd]. eexists _, _. split; [reflexivity | exact Hqr].
  - cbn [Update_]. destruct (negb (IsRunning b)); [by eexists _, _|].
    unfold Action_Update, UpdateStatus. cbn [fst snd].
    destruct (Action_UpdateStatus_Ok (IsDone (ActionChecker v x (env v =? x)%Z)) b)
      as (b' & tb & ->).
    cbn [bind ret fst snd]. by eexists _, _.
  - cbn [Update_]. destruct (negb (IsRunning b)); [by eexists _, _|].
    unfold Action_Update, UpdateStatus. cbn [fst snd].
    match goal with |- context [Action_UpdateStatus ?x b] =>
      destruct (Action_UpdateStatus_Ok x b) as (b' & tb & ->) end.
    cbn [bind ret fst snd]. by eexists _, _.
  - cbn [Update_]. destruct (negb (IsRunning b)); [by eexists _, _|].
    unfold Action_Update, UpdateStatus. cbn [fst snd emit bind].
    match goal with |- context [Action_UpdateStatus ?x b] =>
      destruct (Action_UpdateStatus_Ok x b) as (b' & tb & ->) end.
    cbn [bind ret fst snd]. by eexists _, _.
Qed.

(** X21. On a tree that holds no sequence, no operation can index out of
    range: every sequence of [Start], [Pause], [Resume], [Stop] and [Update]
    returns, and the tree still holds no sequence. *)
Theorem queue_free_never_faults (ops : list Op) (a : Action) :
  queue_free a.2 = true ->
  exists a' t, run_ops ops a = Ok a' t /\ queue_free a'.2 = true.
Proof.
  revert a. induction ops as [|op ops IH]; intros [b d] Hq; cbn [fst snd] in Hq.
  - by eexists _, _.
  - assert (exists a1 t1, run_op op (b, d) = Ok a1 t1 /\ queue_free a1.2 = true)
      as (a1 & t1 & Hop & Hq1).
    { destruct op; cbn [run_op].
      - unfold Start. cbn [fst snd]. destruct (Action_Start_Ok b) as (b' & tb & ->).
        by eexists _, _.
      - by apply Pause_queue_free.
      - by apply Resume_queue_free.
      - by apply Stop_queue_free.
      - unfold Update. cbn [fst snd].
        destruct (Update_queue_free env d Hq b intervalTime) as (r & t & -> & Hqr).
        by eexists _, _. }
    destruct (IH a1 Hq1) as (a' & t' & Hops & Hq').
    eexists _, _. split; [|exact Hq']. cbn [run_ops]. rewrite Hop. cbn [bind].
    rewrite Hops. reflexivity.
Qed.

Lemma queue_free_never_faults_witness :
  exists a' t,
    run_ops [OpStart; OpUpdate env0 1; OpPause; OpStop; OpResume; OpUpdate env0 1]
      (new_ActionWaitAny [9] [new_ActionWaitForTime [] 2;
                              new_ActionWaitAll [] [new_ActionFunction [] 1]]) = Ok a' t /\
    queue_free a'.2 = true.
Proof.
  apply (queue_free_never_faults
           [OpStart; OpUpdate env0 1; OpPause; OpStop; OpResume; OpUpdate env0 1]
           (new_ActionWaitAny [9] [new_ActionWaitForTime [] 2;
                                   new_ActionWaitAll [] [new_ActionFunction [] 1]])).
  reflexivity.
Defined.

(** ** The size of the registry *)

(** X22. [GetActionSize] counts the registered names: [Start] under a free
    name adds one and under a registered name adds none; [Stop] of a
    registered name takes one away and of an unknown name takes none. *)
Theorem ActionManager_size (name : string) (a : Action) (m : gmap string Action) :
  (forall m' a' t,
     ActionManager_Start name a m = Ok (m', a') t ->
     ActionManager_GetActionSize m' =
     if ActionManager_IsExist name m then ActionManager_GetActionSize m
     else S (ActionManager_GetActionSize m)) /\
  (forall m' t,
     ActionManager_Stop name m = Ok m' t ->
     S (ActionManager_GetActionSize m') =
     if ActionManager_IsExist name m then ActionManager_GetActionSize m
     else S (ActionManager_GetActionSize m)).
Proof.
  unfold ActionManager_Start, ActionManager_Stop, ActionManager_IsExist,
    ActionManager_GetActionSize.
  destruct (m !! name) as [a0|] eqn:Hm; split; intros; exec_inv; try reflexivity.
  - rewrite map_size_delete_Some by eauto.
    assert (size m <> 0); [|lia].
    intros Hz. apply map_size_empty_inv in Hz. subst m. by rewrite lookup_empty in Hm.
  - by apply map_size_insert_None.
Qed.

Lemma ActionManager_size_witness :
  ActionManager_GetActionSize
    ({[ "wait" := (mkBase ST.RUNNING [4], ActionWaitForTime 1 0 false) ]}
       : gmap string Action) =
  if ActionManager_IsExist "wait" (∅ : gmap string Action)
  then ActionManager_GetActionSize (∅ : gmap string Action)
  else S (ActionManager_GetActionSize (∅ : gmap string Action)).
Proof.
  apply (proj1 (ActionManager_size "wait" (new_ActionWaitForTime [4] 1) ∅)
           {[ "wait" := (mkBase ST.RUNNING [4], ActionWaitForTime 1 0 false) ]}
           (mkBase ST.RUNNING [4], ActionWaitForTime 1 0 false)
           [Notify [] 4 EV.STARTED]).
  vm_compute. reflexivity.
Defined.
